(** * bazaar / hio: serve configuration, router and responders

    A shallow embedding of the [hio] package (serve.go, handler.go) and of
    the parts of the platform it calls, followed by the properties of the
    specification that were checked against it.

    Conventions.
    - Go [int] and [time.Duration] (an [int64] count of nanoseconds) are [Z];
      no arithmetic is performed on them by the code embedded here, only
      comparisons with zero and assignments.
    - Go strings are [string] (a sequence of bytes).
    - A nullable pointer, function or interface value is an [option]; the
      value [None] is Go's [nil].
    - A Go [error] is [option error]: [None] is the nil error. *)

From stdpp Require Import gmap strings list fin_maps.
From Stdlib Require Import Ascii ZArith Lia.

Set Warnings "-register-all".

Local Open Scope string_scope.
Local Open Scope list_scope.
Local Open Scope Z_scope.

(** ** Errors and dynamically typed values *)

(** [errors.New], [fmt.Errorf] and the errors that the platform reports
    (file system, TLS, JSON encoder). The arguments of [fmt.Errorf] are
    values of type [any]. *)
Inductive error : Type :=
| errors_New (text : string)
| fmt_Errorf (format : string) (args : list any)
| platform_error (text : string)
with any : Type :=
| any_error (e : error)
| any_string (s : string)
| any_int (n : Z)
| any_opaque (id : nat).

(** ** time.Duration constants *)

Definition time_Nanosecond : Z := 1.
Definition time_Microsecond : Z := 1000 * time_Nanosecond.
Definition time_Millisecond : Z := 1000 * time_Microsecond.
Definition time_Second : Z := 1000 * time_Millisecond.
Definition time_Minute : Z := 60 * time_Second.

Definition _defaultPort : Z := 8080.
Definition _defaultIdleTimeout : Z := 1 * time_Minute.
Definition _defaultReadTimeout : Z := 5 * time_Second.
Definition _defaultWriteTimeout : Z := 10 * time_Second.
Definition _defaultShutdownTimeout : Z := 10 * time_Second.

(** ** TLS material (crypto/tls, crypto/x509) *)

Definition tls_Certificate : Type := string.
Definition x509_CertPool : Type := list string.

Inductive tls_ClientAuthType : Type :=
| tls_NoClientCert
| tls_RequestClientCert
| tls_RequireAnyClientCert
| tls_VerifyClientCertIfGiven
| tls_RequireAndVerifyClientCert.

Definition tls_VersionTLS12 : Z := 771.

Record tls_Config : Type := mk_tls_Config {
  ClientAuth : tls_ClientAuthType;
  Certificates : list tls_Certificate;
  ClientCAs : x509_CertPool;
  MinVersion : Z;
  NextProtos : list string
}.

(** ** ServeConfig *)

(** A [log.Logger] is held by pointer; only its identity matters here. *)
Definition log_Logger : Type := nat.

Record ServeConfig : Type := mkServeConfig {
  Host : string;
  Port : Z;
  IdleTimeout : Z;
  ReadTimeout : Z;
  WriteTimeout : Z;
  ShutdownTimeout : Z;
  ErrorLog : option log_Logger;
  TLS : option tls_Config;
  tlsErr : option error
}.

(** The zero value of the struct ([var cfg ServeConfig]). *)
Definition zeroServeConfig : ServeConfig :=
  {| Host := ""; Port := 0; IdleTimeout := 0; ReadTimeout := 0;
     WriteTimeout := 0; ShutdownTimeout := 0;
     ErrorLog := None; TLS := None; tlsErr := None |}.

(** Field assignments [c.F = v]. *)
Definition set_Host (v : string) (c : ServeConfig) : ServeConfig :=
  mkServeConfig v (Port c) (IdleTimeout c) (ReadTimeout c) (WriteTimeout c)
    (ShutdownTimeout c) (ErrorLog c) (TLS c) (tlsErr c).
Definition set_Port (v : Z) (c : ServeConfig) : ServeConfig :=
  mkServeConfig (Host c) v (IdleTimeout c) (ReadTimeout c) (WriteTimeout c)
    (ShutdownTimeout c) (ErrorLog c) (TLS c) (tlsErr c).
Definition set_IdleTimeout (v : Z) (c : ServeConfig) : ServeConfig :=
  mkServeConfig (Host c) (Port c) v (ReadTimeout c) (WriteTimeout c)
    (ShutdownTimeout c) (ErrorLog c) (TLS c) (tlsErr c).
Definition set_ReadTimeout (v : Z) (c : ServeConfig) : ServeConfig :=
  mkServeConfig (Host c) (Port c) (IdleTimeout c) v (WriteTimeout c)
    (ShutdownTimeout c) (ErrorLog c) (TLS c) (tlsErr c).
Definition set_WriteTimeout (v : Z) (c : ServeConfig) : ServeConfig :=
  mkServeConfig (Host c) (Port c) (IdleTimeout c) (ReadTimeout c) v
    (ShutdownTimeout c) (ErrorLog c) (TLS c) (tlsErr c).
Definition set_ShutdownTimeout (v : Z) (c : ServeConfig) : ServeConfig :=
  mkServeConfig (Host c) (Port c) (IdleTimeout c) (ReadTimeout c)
    (WriteTimeout c) v (ErrorLog c) (TLS c) (tlsErr c).
Definition set_TLS (v : option tls_Config) (e : option error)
    (c : ServeConfig) : ServeConfig :=
  mkServeConfig (Host c) (Port c) (IdleTimeout c) (ReadTimeout c)
    (WriteTimeout c) (ShutdownTimeout c) (ErrorLog c) v e.

(** [DefaultServeConfig]. *)
Definition DefaultServeConfig : ServeConfig :=
  {| Host := ""; Port := _defaultPort;
     IdleTimeout := _defaultIdleTimeout;
     ReadTimeout := _defaultReadTimeout;
     WriteTimeout := _defaultWriteTimeout;
     ShutdownTimeout := _defaultShutdownTimeout;
     ErrorLog := None; TLS := None; tlsErr := None |}.

(** [ServeConfig.Override]: the receiver is threaded through the six
    conditional assignments, in source order. *)
Definition Override (c other : ServeConfig) : ServeConfig :=
  let c := if decide (Host other ≠ "") then set_Host (Host other) c else c in
  let c := if decide (Port other ≠ 0) then set_Port (Port other) c else c in
  let c := if decide (IdleTimeout other ≠ 0)
           then set_IdleTimeout (IdleTimeout other) c else c in
  let c := if decide (ReadTimeout other ≠ 0)
           then set_ReadTimeout (ReadTimeout other) c else c in
  let c := if decide (WriteTimeout other ≠ 0)
           then set_WriteTimeout (WriteTimeout other) c else c in
  let c := if decide (ShutdownTimeout other ≠ 0)
           then set_ShutdownTimeout (ShutdownTimeout other) c else c in
  c.

(** [ServeConfig.setDefaultZeroValues]. *)
Definition setDefaultZeroValues (c : ServeConfig) : ServeConfig :=
  let c := if Port c <=? 0 then set_Port _defaultPort c else c in
  let c := if IdleTimeout c <=? 0
           then set_IdleTimeout _defaultIdleTimeout c else c in
  let c := if ReadTimeout c <=? 0
           then set_ReadTimeout _defaultReadTimeout c else c in
  let c := if WriteTimeout c <=? 0
           then set_WriteTimeout _defaultWriteTimeout c else c in
  let c := if ShutdownTimeout c <=? 0
           then set_ShutdownTimeout _defaultShutdownTimeout c else c in
  c.

(** [ServeConfig.Validate] mutates the receiver and returns an error:
    the result is the receiver after the call and the returned error. *)
Definition Validate (c : ServeConfig) : ServeConfig * option error :=
  let c := setDefaultZeroValues c in
  if Port c <=? 0 then
    (c, Some (errors_New "port must be greater than 0"))
  else if IdleTimeout c <=? 0 then
    (c, Some (errors_New "idle timeout must be greater than 0"))
  else if ReadTimeout c <=? 0 then
    (c, Some (errors_New "read timeout must be greater than 0"))
  else if WriteTimeout c <=? 0 then
    (c, Some (errors_New "write timeout must be greater than 0"))
  else if ShutdownTimeout c <=? 0 then
    (c, Some (errors_New "shutdown timeout must be greater than 0"))
  else match tlsErr c with
       | Some e =>
           (c, Some (fmt_Errorf
                       "tls must be configured correctly if provided: %w"
                       [any_error e]))
       | None => (c, None)
       end.

(** ** Serve options *)

(** The option structs; [ServeOption] is the interface they implement. *)
Inductive ServeOption : Type :=
| hostOption (value : string)
| portOption (value : Z)
| idleTimeoutOption (value : Z)
| readTimeoutOption (value : Z)
| writeTimeoutOption (value : Z)
| shutdownTimeoutOption (value : Z)
| tlsOption (value : option tls_Config) (err : option error)
| configOption (value : ServeConfig)
| configOptions (value : list ServeOption).

Definition WithHost (v : string) : ServeOption := hostOption v.
Definition WithPort (v : Z) : ServeOption := portOption v.
Definition WithIdleTimeout (v : Z) : ServeOption := idleTimeoutOption v.
Definition WithReadTimeout (v : Z) : ServeOption := readTimeoutOption v.
Definition WithWriteTimeout (v : Z) : ServeOption := writeTimeoutOption v.
Definition WithShutdownTimeout (v : Z) : ServeOption :=
  shutdownTimeoutOption v.
Definition WithConfig (v : ServeConfig) : ServeOption := configOption v.
Definition WithOptions (v : list ServeOption) : ServeOption :=
  configOptions v.

(** The [apply] methods; the composite option runs its list in order. *)
Fixpoint apply (o : ServeOption) (cfg : ServeConfig) : ServeConfig :=
  match o with
  | hostOption v => set_Host v cfg
  | portOption v => set_Port v cfg
  | idleTimeoutOption v => set_IdleTimeout v cfg
  | readTimeoutOption v => set_ReadTimeout v cfg
  | writeTimeoutOption v => set_WriteTimeout v cfg
  | shutdownTimeoutOption v => set_ShutdownTimeout v cfg
  | tlsOption v e => set_TLS v e cfg
  | configOption v => Override cfg v
  | configOptions l =>
      (fix range (l : list ServeOption) (cfg : ServeConfig) : ServeConfig :=
         match l with
         | [] => cfg
         | opt :: rest => range rest (apply opt cfg)
         end) l cfg
  end.

(** The platform functions [WithTLS] calls are parameters: the file system
    and the certificate parsers decide their results. A call that fails
    returns a non-nil error, [inr e]. *)
Section WithTLS.

Variable tls_LoadX509KeyPair :
  string -> string -> tls_Certificate + error.
Variable os_ReadFile : string -> string + error.
(** [pool.AppendCertsFromPEM(ca)] on a new pool: the pool afterwards, or
    [None] when no certificate could be appended ([ok = false]). *)
Variable x509_AppendCertsFromPEM : string -> option x509_CertPool.

Definition WithTLS (caFile ceFile keyFile : string) : ServeOption :=
  match tls_LoadX509KeyPair ceFile keyFile with
  | inr err => tlsOption None (Some err)
  | inl ce =>
      match os_ReadFile caFile with
      | inr err => tlsOption None (Some err)
      | inl ca =>
          match x509_AppendCertsFromPEM ca with
          | None =>
              tlsOption None
                (Some (errors_New "unable to append certs from PEM"))
          | Some pool =>
              tlsOption
                (Some {| ClientAuth := tls_RequireAndVerifyClientCert;
                         Certificates := [ce];
                         ClientCAs := pool;
                         MinVersion := tls_VersionTLS12;
                         NextProtos := ["h2"; "http/1.1"] |})
                None
          end
      end
  end.

(** File loading or certificate parsing fails: one of the three platform
    calls reports failure. *)
Definition WithTLS_fails (caFile ceFile keyFile : string) : Prop :=
  match tls_LoadX509KeyPair ceFile keyFile with
  | inr _ => True
  | inl _ =>
      match os_ReadFile caFile with
      | inr _ => True
      | inl ca => x509_AppendCertsFromPEM ca = None
      end
  end.

End WithTLS.

(** ** Package strings *)

(** Membership of a byte in a cutset. The cutsets of this program are the
    one-byte string ["/"], for which Go trims bytewise. *)
Fixpoint inCutset (c : ascii) (cutset : string) : bool :=
  match cutset with
  | EmptyString => false
  | String d rest => if Ascii.eqb c d then true else inCutset c rest
  end.

(** [strings.TrimLeft]: drop leading bytes while they are in the cutset. *)
Fixpoint strings_TrimLeft (s cutset : string) : string :=
  match s with
  | EmptyString => EmptyString
  | String c rest =>
      if inCutset c cutset then strings_TrimLeft rest cutset else s
  end.

(** [strings.TrimRight]: drop trailing bytes while they are in the cutset. *)
Fixpoint strings_TrimRight (s cutset : string) : string :=
  match s with
  | EmptyString => EmptyString
  | String c rest =>
      match strings_TrimRight rest cutset with
      | EmptyString =>
          if inCutset c cutset then EmptyString else String c EmptyString
      | kept => String c kept
      end
  end.

(** [strings.Trim] trims the right end, then the left end. *)
Definition strings_Trim (s cutset : string) : string :=
  strings_TrimLeft (strings_TrimRight s cutset) cutset.

(** [strings.HasSuffix]:
    [len(s) >= len(suffix) && s[len(s)-len(suffix):] == suffix]. *)
Definition strings_HasSuffix (s suffix : string) : bool :=
  let n := String.length s in
  let m := String.length suffix in
  (m <=? n)%nat && String.eqb (String.substring (n - m) m s) suffix.

(** ** net/http: requests, response writers and handlers *)

Record http_Request : Type := mk_http_Request {
  Method : string;
  URL_Path : string;
  URL_RawQuery : string
}.

(** What a response writer was asked to do, in order. [http.Redirect] is
    a platform function acting on the writer; its call is recorded with
    its arguments, and the header map it finds is the one held then. *)
Inductive WriterCall : Type :=
| call_WriteHeader (code : Z)
| call_Write (data : string)
| call_Redirect (url : string) (code : Z).

(** An [http.ResponseWriter]: its header map ([http.Header], a map from
    field names to value lists) and the calls received so far. *)
Record ResponseWriter : Type := mk_ResponseWriter {
  Header : gmap string (list string);
  Calls : list WriterCall
}.

Definition newResponseWriter : ResponseWriter :=
  {| Header := ∅; Calls := [] |}.

(** [w.Header()[key] = vals] *)
Definition Header_assign (key : string) (vals : list string)
    (w : ResponseWriter) : ResponseWriter :=
  {| Header := <[key := vals]> (Header w); Calls := Calls w |}.

(** [w.Header().Set(key, value)]; the keys used here are already in
    canonical form. *)
Definition Header_Set (key value : string) (w : ResponseWriter)
    : ResponseWriter :=
  Header_assign key [value] w.

Definition WriteHeader (code : Z) (w : ResponseWriter) : ResponseWriter :=
  {| Header := Header w; Calls := Calls w ++ [call_WriteHeader code] |}.

Definition Write (data : string) (w : ResponseWriter) : ResponseWriter :=
  {| Header := Header w; Calls := Calls w ++ [call_Write data] |}.

(** [fmt.Fprint(w, message)] with a single string operand writes it. *)
Definition fmt_Fprint (message : string) (w : ResponseWriter)
    : ResponseWriter :=
  Write message w.

Definition http_Redirect (w : ResponseWriter) (r : http_Request)
    (url : string) (code : Z) : ResponseWriter :=
  {| Header := Header w; Calls := Calls w ++ [call_Redirect url code] |}.

Definition http_StatusPermanentRedirect : Z := 308.

Definition http_MethodGet : string := "GET".
Definition http_MethodPost : string := "POST".
Definition http_MethodPut : string := "PUT".
Definition http_MethodDelete : string := "DELETE".
Definition http_MethodPatch : string := "PATCH".

(** An [http.Handler] is its [ServeHTTP] method: it acts on the writer.
    [http.HandlerFunc] is the identity on such functions. *)
Definition http_Handler : Type :=
  ResponseWriter -> http_Request -> ResponseWriter.

Definition http_HandlerFunc (f : ResponseWriter -> http_Request ->
                                 ResponseWriter) : http_Handler := f.

(** ** Handler chains *)

(** [type Handler func(http.ResponseWriter, *http.Request) Handler]:
    a unit acts on the writer and returns the next unit, or nil. *)
Inductive Handler : Type :=
| HandlerOf (run : ResponseWriter -> http_Request ->
                   ResponseWriter * option Handler).

Definition run (h : Handler)
    : ResponseWriter -> http_Request -> ResponseWriter * option Handler :=
  match h with HandlerOf f => f end.

(** [Handler.ServeHTTP] runs the chain until a unit returns nil. *)
Fixpoint Handler_ServeHTTP (h : Handler) (w : ResponseWriter)
    (r : http_Request) : ResponseWriter :=
  match h with
  | HandlerOf f =>
      match f w r with
      | (w', Some next) => Handler_ServeHTTP next w' r
      | (w', None) => w'
      end
  end.

(** [type Middleware = func(http.Handler) http.Handler]; a nil function
    value is [None]. *)
Definition Middleware : Type := option (http_Handler -> http_Handler).

(** ** Responder *)

(** [type Responder struct{ err func(error) Handler }] *)
Record Responder : Type := mkResponder {
  err : error -> Handler
}.

Definition NewResponder (f : error -> Handler) : Responder :=
  {| err := f |}.

(** [*slog.Logger], held by pointer. *)
Definition slog_Logger : Type := nat.

(** [NewErrorLoggingResponder]: the callback builds a unit that calls
    [fn(w, r, l, err)] and returns nil. *)
Definition NewErrorLoggingResponder (l : slog_Logger)
    (fn : ResponseWriter -> http_Request -> slog_Logger -> error ->
          ResponseWriter) : Responder :=
  {| err := fun e => HandlerOf (fun w r => (fn w r l e, None)) |}.

(** Calls of the injected callback are observable. An operation of the
    Responder yields its result together with the errors the callback
    [rs.err] was called with while the operation ran, in call order. *)
Definition Calling (A : Type) : Type := A * list error.

Definition result {A : Type} (a : A) : Calling A := (a, []).

(** The call expression [rs.err(e)]. *)
Definition call_err (rs : Responder) (e : error) : Calling Handler :=
  (err rs e, [e]).

(** [Responder.Error] *)
Definition Responder_Error (rs : Responder) (format : string)
    (args : list any) : Calling Handler :=
  call_err rs (fmt_Errorf format args).

(** [Responder.Redirect] *)
Definition Responder_Redirect (rs : Responder) (code : Z) (url : string)
    : Calling Handler :=
  result (HandlerOf (fun w r => (http_Redirect w r url code, None))).

(** [Responder.Text] *)
Definition Responder_Text (rs : Responder) (code : Z) (message : string)
    : Calling Handler :=
  result (HandlerOf (fun w r =>
    let w := Header_Set "Content-Type" "text/plain; charset=utf-8" w in
    let w := WriteHeader code w in
    let w := fmt_Fprint message w in
    (w, None))).

Section JSON.

(** [json.Marshal]: the encoder of the platform, [inr e] when it fails. *)
Variable json_Marshal : any -> string + error.

(** [Responder.JSON] *)
Definition Responder_JSON (rs : Responder) (code : Z) (from : any)
    : Calling Handler :=
  match json_Marshal from with
  | inr e => Responder_Error rs "encoding JSON: %w" [any_error e]
  | inl data =>
      result (HandlerOf (fun w r =>
        let w := Header_Set "Content-Type" "application/json" w in
        let w := WriteHeader code w in
        let w := Write data w in
        (w, None)))
  end.

End JSON.

(** ** Ancillary middleware *)

(** [TrailingSlashRedirector]: the function literal has one [if]
    statement, whose body ends in [return], and no statement after it. *)
Definition TrailingSlashRedirector (next : http_Handler) : http_Handler :=
  http_HandlerFunc (fun w r =>
    if negb (String.eqb (URL_Path r) "/")
       && strings_HasSuffix (URL_Path r) "/"
    then
      let path := strings_TrimRight (URL_Path r) "/" in
      let path := if negb (String.eqb (URL_RawQuery r) "")
                  then path +:+ "?" +:+ URL_RawQuery r else path in
      let w := Header_assign "Content-Type" [] w in
      http_Redirect w r path http_StatusPermanentRedirect
    else w).

(** ** The store: backing arrays, dispatch tables and routers *)

Definition loc : Type := nat.

(** A slice header of type [[]Middleware]: pointer to the backing array
    (nil for the nil slice), length and capacity. The program never
    reslices, so every slice starts at index 0 of its array. *)
Record Slice : Type := mkSlice {
  ptr : option loc;
  len : nat;
  cap : nat
}.

Definition nilSlice : Slice := {| ptr := None; len := 0; cap := 0 |}.

(** [Responder] is a struct value; [m] is a pointer to the shared
    [http.ServeMux]. *)
Record Router : Type := mkRouter {
  m : loc;
  r : Responder;
  prefix : string;
  mws : Slice
}.

(** The dispatch table of the platform is kept as the registrations it
    received through [ServeMux.Handle], oldest first. Its checks of the
    pattern syntax and of conflicts between patterns are not modelled. *)
Definition ServeMux : Type := list (string * http_Handler).

Record Store : Type := mkStore {
  arrays : gmap loc (list Middleware);
  muxes : gmap loc ServeMux;
  routers : gmap loc Router
}.

Definition emptyStore : Store :=
  {| arrays := ∅; muxes := ∅; routers := ∅ |}.

Definition set_arrays (a : gmap loc (list Middleware)) (σ : Store) : Store :=
  {| arrays := a; muxes := muxes σ; routers := routers σ |}.
Definition set_muxes (x : gmap loc ServeMux) (σ : Store) : Store :=
  {| arrays := arrays σ; muxes := x; routers := routers σ |}.
Definition set_routers (x : gmap loc Router) (σ : Store) : Store :=
  {| arrays := arrays σ; muxes := muxes σ; routers := x |}.

(** Computations on the store; [None] is a run-time panic. *)
Definition M (A : Type) : Type := Store -> option (A * Store).

Definition ret {A : Type} (a : A) : M A := fun σ => Some (a, σ).

Definition bind {A B : Type} (c : M A) (k : A -> M B) : M B :=
  fun σ => match c σ with
           | Some (a, σ') => k a σ'
           | None => None
           end.

Definition panic {A : Type} : M A := fun _ => None.

Notation "'do' x <- c ; k" := (bind c (fun x => k))
  (at level 10, x name, c at level 100, k at level 200).

(** Dereference of a router pointer. *)
Definition get_router (p : loc) : M Router :=
  fun σ => match routers σ !! p with
           | Some rt => Some (rt, σ)
           | None => None
           end.

(** [p.mws = s] *)
Definition assign_mws (p : loc) (s : Slice) : M unit :=
  do rt <- get_router p;
  fun σ => Some (tt, set_routers
                       (<[p := mkRouter (m rt) (r rt) (prefix rt) s]>
                          (routers σ)) σ).

(** [&Router{...}] *)
Definition new_Router (rt : Router) : M loc :=
  fun σ => let p := fresh (dom (routers σ)) in
           Some (p, set_routers (<[p := rt]> (routers σ)) σ).

(** [http.NewServeMux()] *)
Definition http_NewServeMux : M loc :=
  fun σ => let x := fresh (dom (muxes σ)) in
           Some (x, set_muxes (<[x := []]> (muxes σ)) σ).

(** [mux.Handle(pattern, handler)] *)
Definition ServeMux_Handle (x : loc) (pattern : string) (h : http_Handler)
    : M unit :=
  fun σ => match muxes σ !! x with
           | Some table =>
               Some (tt, set_muxes
                           (<[x := table ++ [(pattern, h)]]> (muxes σ)) σ)
           | None => None
           end.

(** The elements [s[0], ..., s[len(s)-1]]. *)
Definition elems (s : Slice) : M (list Middleware) :=
  fun σ => match ptr s with
           | None => Some ([], σ)
           | Some a => match arrays σ !! a with
                       | Some arr => Some (take (len s) arr, σ)
                       | None => None
                       end
           end.

(** Writes [xs] into the backing array of [s] from index [i] on. *)
Definition store_at (s : Slice) (i : nat) (xs : list Middleware) : M unit :=
  fun σ =>
    match xs with
    | [] => Some (tt, σ)
    | _ =>
        match ptr s with
        | None => None
        | Some a =>
            match arrays σ !! a with
            | Some arr =>
                if decide (i + length xs ≤ length arr)%nat then
                  Some (tt, set_arrays
                              (<[a := take i arr ++ xs
                                        ++ drop (i + length xs) arr]>
                                 (arrays σ)) σ)
                else None
            | None => None
            end
        end
    end.

(** [make([]Middleware, n, c)]: a new array of [c] nil elements. *)
Definition make (n c : nat) : M Slice :=
  fun σ =>
    if decide (n ≤ c)%nat then
      let a := fresh (dom (arrays σ)) in
      Some ({| ptr := Some a; len := n; cap := c |},
            set_arrays (<[a := replicate c None]> (arrays σ)) σ)
    else None.

(** [copy(dst, src)] copies [min(len(dst), len(src))] elements. *)
Definition copy (dst src : Slice) : M nat :=
  do xs <- elems src;
  let n := Nat.min (len dst) (len src) in
  do _ <- store_at dst 0 (take n xs);
  ret n.

Section Runtime.

(** The capacity the run time proposes when [append] must grow a slice
    of capacity [old] to hold [needed] elements. The growth policy belongs
    to the Go run time; [append] takes the larger of this value and
    [needed], so the new array always holds the elements. *)
Variable growcap : nat -> nat -> nat.

(** [append(s, xs...)]: in place when the capacity suffices, otherwise
    into a new, larger array. *)
Definition append (s : Slice) (xs : list Middleware) : M Slice :=
  let n := (len s + length xs)%nat in
  if decide (n ≤ cap s)%nat then
    do _ <- store_at s (len s) xs;
    ret {| ptr := ptr s; len := n; cap := cap s |}
  else
    do old <- elems s;
    fun σ =>
      let a := fresh (dom (arrays σ)) in
      let c := Nat.max n (growcap (cap s) n) in
      Some ({| ptr := Some a; len := n; cap := c |},
            set_arrays
              (<[a := old ++ xs ++ replicate (c - n) None]> (arrays σ)) σ).

(** [NewRouter] *)
Definition NewRouter (l : slog_Logger)
    (fn : ResponseWriter -> http_Request -> slog_Logger -> error ->
          ResponseWriter) : M loc :=
  do x <- http_NewServeMux;
  new_Router {| m := x; r := NewErrorLoggingResponder l fn;
                prefix := ""; mws := nilSlice |}.

(** [Router.Group] *)
Definition Group (ro : loc) (pfx : string) (ms : list Middleware)
    : M loc :=
  do parent <- get_router ro;
  do s <- make (len (mws parent)) (len (mws parent) + length ms);
  do child <- new_Router
                {| m := m parent; r := r parent;
                   prefix := prefix parent +:+ "/" +:+ strings_Trim pfx "/";
                   mws := s |};
  do c <- get_router child;
  do parent <- get_router ro;
  do _ <- copy (mws c) (mws parent);
  do c <- get_router child;
  do s' <- append (mws c) ms;
  do _ <- assign_mws child s';
  ret child.

(** [Router.Use] *)
Definition Use (ro : loc) (ms : list Middleware) : M unit :=
  do rt <- get_router ro;
  do s <- append (mws rt) ms;
  assign_mws ro s.

(** [slices.Backward] yields the elements from the last to the first. *)
Definition slices_Backward (xs : list Middleware) : list Middleware :=
  reverse xs.

(** The loop [for _, mw := range ... { h = mw(h) }]; calling a nil
    function panics. *)
Fixpoint wrap_range (xs : list Middleware) (h : http_Handler)
    : M http_Handler :=
  match xs with
  | [] => ret h
  | Some mw :: rest => wrap_range rest (mw h)
  | None :: _ => panic
  end.

(** [Router.wrap] *)
Definition wrap (ro : loc) (h : http_Handler) : M http_Handler :=
  do rt <- get_router ro;
  if (0 <? len (mws rt))%nat then
    do xs <- elems (mws rt);
    wrap_range (slices_Backward xs) h
  else ret h.

(** The pattern [handle] hands to the dispatch table. *)
Definition route_pattern (method pfx pattern : string) : string :=
  method +:+ " "
    +:+ strings_TrimRight (pfx +:+ "/" +:+ strings_Trim pattern "/") "/".

(** [Router.handle]; a [Handler] is used as an [http.Handler] through
    its [ServeHTTP] method. *)
Definition handle (ro : loc) (method pattern : string)
    (handler : Responder -> Handler) : M unit :=
  do rt <- get_router ro;
  do h <- wrap ro (Handler_ServeHTTP (handler (r rt)));
  ServeMux_Handle (m rt) (route_pattern method (prefix rt) pattern) h.

Definition Get := fun ro => handle ro http_MethodGet.
Definition Post := fun ro => handle ro http_MethodPost.
Definition Put := fun ro => handle ro http_MethodPut.
Definition Delete := fun ro => handle ro http_MethodDelete.
Definition Patch := fun ro => handle ro http_MethodPatch.

(** The middleware list of router [p] as the store holds it. *)
Definition middlewares (p : loc) (σ : Store) : option (list Middleware) :=
  match (do rt <- get_router p; elems (mws rt)) σ with
  | Some (xs, _) => Some xs
  | None => None
  end.

(** The dispatch table router [p] registers into. *)
Definition table (p : loc) (σ : Store) : option ServeMux :=
  match routers σ !! p with
  | Some rt => muxes σ !! m rt
  | None => None
  end.

End Runtime.

(** ** Well-formed stores *)

(** A slice header is well formed in a store when its backing array is
    allocated and as long as the capacity; the nil slice is empty. *)
Definition wf_slice (σ : Store) (s : Slice) : Prop :=
  match ptr s with
  | None => len s = 0%nat ∧ cap s = 0%nat
  | Some a => ∃ arr, arrays σ !! a = Some arr
                     ∧ (len s ≤ cap s)%nat ∧ cap s = length arr
  end.

(** The elements of a slice, read off the store. *)
Definition contents (σ : Store) (s : Slice) : list Middleware :=
  match ptr s with
  | None => []
  | Some a => match arrays σ !! a with
              | Some arr => take (len s) arr
              | None => []
              end
  end.

(** Two slices with different backing arrays. *)
Definition separate (s t : Slice) : Prop :=
  ∀ a, ptr s = Some a → ptr t ≠ Some a.

(** The stores the operations of the package build: every router has a
    well-formed middleware slice and an allocated dispatch table, and no
    two routers share a backing array. *)
Record store_ok (σ : Store) : Prop := mk_store_ok {
  ok_slice : ∀ p rt, routers σ !! p = Some rt → wf_slice σ (mws rt);
  ok_mux : ∀ p rt, routers σ !! p = Some rt → is_Some (muxes σ !! m rt);
  ok_separate : ∀ p q rp rq,
    p ≠ q → routers σ !! p = Some rp → routers σ !! q = Some rq →
    separate (mws rp) (mws rq)
}.

(** [m1(m2(...(mn(h))...))] for the list [m1, ..., mn]. *)
Definition onion (fs : list (http_Handler → http_Handler))
    (h : http_Handler) : http_Handler :=
  foldr (λ mw k, mw k) h fs.

(** ** Sample inputs *)

(** A platform on which the certificate file is missing: loading the key
    pair reports the error of the file system. *)
Definition missing_LoadX509KeyPair (ceFile keyFile : string)
    : tls_Certificate + error :=
  inr (platform_error "open cert.pem: no such file or directory").

Definition sample_ReadFile (name : string) : string + error :=
  inl "-----BEGIN CERTIFICATE-----".

Definition sample_AppendCertsFromPEM (pem : string)
    : option x509_CertPool :=
  Some [pem].



(** A middleware that writes [pre] before the inner handler runs and
    [post] after it has returned. *)
Definition bracket (pre post : string) : http_Handler → http_Handler :=
  fun next =>
    http_HandlerFunc (fun w req => Write post (next (Write pre w) req)).

(** An inner handler that answers 200 "ok". *)
Definition ok_handler : http_Handler :=
  fun w _ => Write "ok" (WriteHeader 200 w).

Definition users_request : http_Request :=
  {| Method := "GET"; URL_Path := "/users"; URL_RawQuery := "" |}.

(** An error function for [NewErrorLoggingResponder] that answers 500. *)
Definition sample_fn (w : ResponseWriter) (req : http_Request)
    (l : slog_Logger) (e : error) : ResponseWriter :=
  WriteHeader 500 w.

(** A handler factory that answers with a text. *)
Definition hello (rs : Responder) : Handler :=
  fst (Responder_Text rs 200 "hello").


(** A growth policy that doubles the capacity. *)
Definition doubling (old needed : nat) : nat := 2 * old.

(** A store with one router: its middleware slice has one element and
    room for a second. *)
Definition sample_Store : Store :=
  {| arrays := {[ 0%nat := [Some (bracket "A>" "<A"); None] ]};
     muxes := {[ 0%nat := [] ]};
     routers :=
       {[ 0%nat := {| m := 0%nat;
                      r := NewErrorLoggingResponder 0%nat sample_fn;
                      prefix := "";
                      mws := {| ptr := Some 0%nat; len := 1; cap := 2 |} |} ]}
  |}.

(** ** Serve *)

(** The fields of [http.Server] that [Serve] sets. *)
Record http_Server : Type := mk_http_Server {
  srv_Addr : string;
  srv_Handler : http_Handler;
  srv_IdleTimeout : Z;
  srv_ReadTimeout : Z;
  srv_WriteTimeout : Z;
  srv_TLSConfig : option tls_Config
}.

Section Serve.

(** [net.JoinHostPort] and [strconv.Itoa] of the platform. *)
Variable net_JoinHostPort : string → string → string.
Variable strconv_Itoa : Z → string.

(** What [eg.Wait()] returns once the accept task and the shutdown task
    have ended, for the server and the shutdown grace they were started
    with: the platform decides it. *)
Variable eg_Wait : http_Server → Z → option error.

(** [ServeConfig.Addr] *)
Definition Addr (c : ServeConfig) : string :=
  net_JoinHostPort (Host c) (strconv_Itoa (Port c)).

(** [Serve]: the options are applied in order to the zero configuration,
    the configuration is validated, and only then the server is built and
    the two tasks are started. *)
Definition Serve (h : http_Handler) (opts : list ServeOption)
    : option error :=
  let cfg := foldl (fun cfg opt => apply opt cfg) zeroServeConfig opts in
  match Validate cfg with
  | (_, Some e) => Some e
  | (cfg, None) =>
      eg_Wait {| srv_Addr := Addr cfg;
                 srv_Handler := h;
                 srv_IdleTimeout := IdleTimeout cfg;
                 srv_ReadTimeout := ReadTimeout cfg;
                 srv_WriteTimeout := WriteTimeout cfg;
                 srv_TLSConfig := TLS cfg |}
        (ShutdownTimeout cfg)
  end.

End Serve.

(** A platform on which the key pair and the CA file load. *)
Definition sample_LoadX509KeyPair (ceFile keyFile : string)
    : tls_Certificate + error :=
  inl (ceFile +:+ "+" +:+ keyFile).

Definition users_slash_request : http_Request :=
  {| Method := "GET"; URL_Path := "/users/"; URL_RawQuery := "page=2" |}.

(** ** Package inmem: the in-memory repository *)

Section Repository.

(** The key type [K] (comparable), the value type [V] and its method
    [ID] of the interface [IDer]. *)
Context {K : Type} `{Countable K} {V : Type}.
Variable ID : V → K.

(** The values of type [V] that pointers of type [*V] point to, and the
    map [data] of the repository, from keys to pointers. The mutex of the
    repository serialises the calls; a call is modelled as one step. *)
Record Memory : Type := mkMemory {
  objects : gmap loc V;
  data : gmap K (option loc)
}.

(** [NewRepository], on the values allocated so far. *)
Definition NewRepository (objs : gmap loc V) : Memory :=
  {| objects := objs; data := ∅ |}.

(** The assignment [*p = x] by the caller. *)
Definition assign (p : loc) (x : V) (σ : Memory) : Memory :=
  {| objects := <[p := x]> (objects σ); data := data σ |}.

(** [Repository.Load]: returns the error and the memory after the call;
    [None] when a pointer that is not allocated is dereferenced. *)
Definition Load (val : option loc) (σ : Memory)
    : option (option error * Memory) :=
  match val with
  | None => Some (Some (errors_New "loading: value empty"), σ)
  | Some p =>
      match objects σ !! p with
      | None => None
      | Some x =>
          match data σ !! ID x with
          | Some (Some q) =>
              match objects σ !! q with
              | None => None
              | Some y => Some (None, assign p y σ)
              end
          | Some None | None =>
              Some (Some (errors_New "loading: not found"), σ)
          end
      end
  end.

(** [Repository.Save]: the map keeps the pointer it is given. *)
Definition Save (val : option loc) (σ : Memory)
    : option (option error * Memory) :=
  match val with
  | None => Some (Some (errors_New "saving: value empty"), σ)
  | Some p =>
      match objects σ !! p with
      | None => None
      | Some x =>
          match data σ !! ID x with
          | Some _ => Some (Some (errors_New "saving: already exists"), σ)
          | None =>
              Some (None,
                    {| objects := objects σ;
                       data := <[ID x := Some p]> (data σ) |})
          end
      end
  end.

(** Every pointer the map holds is allocated, and none is nil. *)
Definition memory_ok (σ : Memory) : Prop :=
  ∀ k v, data σ !! k = Some v → ∃ q, v = Some q ∧ is_Some (objects σ !! q).

End Repository.

(** An account with its number and balance; the number is its ID. *)
Definition sample_account_ID (a : string * Z) : string := fst a.

Definition sample_Memory : @Memory string _ _ (string * Z) :=
  NewRepository {[ 1%nat := ("acc-1", 100); 2%nat := ("acc-1", 0) ]}.

(** ** Package ppp: parse, process, present *)

Section Executor.

(** Inputs [I], outputs [O], the states of the reader and of the writer,
    and the context handed to the processor. *)
Context {I O Rd Wr Ctx : Type}.

(** The three interfaces, each by its method. [Parse] consumes from the
    reader, [Present] writes to the writer. *)
Record Executor : Type := mkExecutor {
  parser : Rd → (I + error) * Rd;
  processor : Ctx → I → O + error;
  presenter : Wr → O → Wr * option error
}.

Definition NewExecutor (pa : Rd → (I + error) * Rd)
    (pr : Ctx → I → O + error) (pe : Wr → O → Wr * option error)
    : Executor :=
  {| parser := pa; processor := pr; presenter := pe |}.

(** [Executor.Execute]: the reader and the writer after the call, and
    the error returned. *)
Definition Execute (e : Executor) (ctx : Ctx) (rd : Rd) (wr : Wr)
    : Rd * Wr * option error :=
  match parser e rd with
  | (inr err, rd') => (rd', wr, Some err)
  | (inl input, rd') =>
      match processor e ctx input with
      | inr err => (rd', wr, Some err)
      | inl output =>
          match presenter e wr output with
          | (wr', err) => (rd', wr', err)
          end
      end
  end.

End Executor.

(** ** DecodeJSON *)

Section DecodeJSON.

(** The value [to] points to, and the state of the reader. *)
Context {T Rd : Type}.

(** [json.UnmarshalRead] of the platform: the reader and the target
    after the call, and the error. *)
Variable json_UnmarshalRead : Rd → T → Rd * T * option error.

(** [DecodeJSON]. The method [Validate] of the target, when its type has
    one, is [validate]: the type assertion succeeds exactly then. *)
Definition DecodeJSON (validate : option (T → option error))
    (from : Rd) (to : T) : Rd * T * option error :=
  match json_UnmarshalRead from to with
  | (from', to', Some err) =>
      (from', to', Some (fmt_Errorf "unmarshaling json: %w" [any_error err]))
  | (from', to', None) =>
      match validate with
      | Some v =>
          match v to' with
          | Some err =>
              (from', to',
               Some (fmt_Errorf "validating: %w" [any_error err]))
          | None => (from', to', None)
          end
      | None => (from', to', None)
      end
  end.

End DecodeJSON.

(** ** Package hlog: response writers as objects *)

(** One call of the logger, [l.LogAttrs], with its message and the four
    attributes: the URL (path and raw query), the method, the duration
    and the status. *)
Record LogRecord : Type := mkLogRecord {
  log_logger : slog_Logger;
  log_message : string;
  log_path : string * string;
  log_method : string;
  log_duration : Z;
  log_status : Z
}.

(** What a request handler can act on: the response writer of the
    server, the integer variables that closures hold pointers to, the
    clock that [time.Now] reads, and the calls the loggers received. *)
Record World : Type := mkWorld {
  response : ResponseWriter;
  vars : gmap loc Z;
  clock : Z;
  logged : list LogRecord
}.


(** [*n = v] *)
Definition set_var (n : loc) (v : Z) (σ : World) : World :=
  {| response := response σ; vars := <[n := v]> (vars σ);
     clock := clock σ; logged := logged σ |}.




(** The values of the interface [http.ResponseWriter]: the writer of the
    server, an [Interceptor] around another writer with its hook (nil or
    a function), or some other wrapper, which has no [Unwrap] method and
    forwards every call. *)
Inductive Writer : Type :=
| transport
| Interceptor (embedded : Writer) (OnWriteHeader : option (Z → World → World))
| plain_wrapper (embedded : Writer).




(** [Interceptor.Unwrap], through the type assertion
    [w.(unwrapper)]: [None] when the writer has no such method. *)
Definition Unwrap (w : Writer) : option Writer :=
  match w with
  | Interceptor inner _ => Some inner
  | transport | plain_wrapper _ => None
  end.









(** ** MaxBytesReader *)

(** What [http.MaxBytesReader] of the platform is given. *)
Record http_maxBytesReader (RC : Type) : Type := mk_maxBytesReader {
  mbr_w : Writer;
  mbr_r : RC;
  mbr_n : Z
}.
Arguments mk_maxBytesReader {RC}.
Arguments mbr_w {RC}.
Arguments mbr_r {RC}.
Arguments mbr_n {RC}.

(** The loop of [MaxBytesReader]: unwrap while the writer offers
    [Unwrap]. *)
Fixpoint unwrap_loop (w : Writer) : Writer :=
  match w with
  | Interceptor inner _ => unwrap_loop inner
  | transport | plain_wrapper _ => w
  end.

(** [MaxBytesReader] *)
Definition MaxBytesReader {RC : Type} (w : Writer) (rc : RC) (max : Z)
    : http_maxBytesReader RC :=
  mk_maxBytesReader (unwrap_loop w) rc max.





Definition newWorld : World :=
  {| response := newResponseWriter; vars := ∅; clock := 0; logged := [] |}.


(** A chain of units: each acts on the writer and returns the next one;
    the last returns [last]. *)
Fixpoint chain (units : list (ResponseWriter → http_Request → ResponseWriter))
    (last : option Handler) : option Handler :=
  match units with
  | [] => last
  | f :: rest => Some (HandlerOf (fun w req => (f w req, chain rest last)))
  end.

(** * Properties of the serve configuration *)

Lemma setDefaultZeroValues_positive (c : ServeConfig) :
  0 < Port (setDefaultZeroValues c)
  ∧ 0 < IdleTimeout (setDefaultZeroValues c)
  ∧ 0 < ReadTimeout (setDefaultZeroValues c)
  ∧ 0 < WriteTimeout (setDefaultZeroValues c)
  ∧ 0 < ShutdownTimeout (setDefaultZeroValues c).
Proof.
  destruct c as [h p i rd wr sh lg t te].
  unfold setDefaultZeroValues; cbn.
  repeat match goal with
         | |- context [?x <=? 0] => destruct (Z.leb_spec x 0); cbn
         end;
    repeat split; first [ assumption | reflexivity ].
Qed.

Lemma setDefaultZeroValues_tlsErr (c : ServeConfig) :
  tlsErr (setDefaultZeroValues c) = tlsErr c.
Proof.
  destruct c as [h p i rd wr sh lg t te].
  unfold setDefaultZeroValues; cbn.
  repeat (match goal with |- context [if ?b then _ else _] =>
                            destruct b end; cbn);
    reflexivity.
Qed.

(** What [Validate] returns, in closed form. *)
Lemma Validate_unfold (c : ServeConfig) :
  Validate c =
    (setDefaultZeroValues c,
     match tlsErr c with
     | Some e =>
         Some (fmt_Errorf "tls must be configured correctly if provided: %w"
                 [any_error e])
     | None => None
     end).
Proof.
  unfold Validate.
  destruct (setDefaultZeroValues_positive c) as (Hp & Hi & Hr & Hw & Hs).
  rewrite <- (setDefaultZeroValues_tlsErr c).
  repeat match goal with
         | |- context [?x <=? 0] =>
             destruct (Z.leb_spec x 0); [lia|]
         end.
  destruct (tlsErr (setDefaultZeroValues c)); reflexivity.
Qed.




(** C9. [Validate] on the zero-valued ServeConfig returns no error and
    leaves the receiver with Port 8080, IdleTimeout one minute,
    ReadTimeout five seconds, WriteTimeout ten seconds and ShutdownTimeout
    ten seconds (in nanoseconds), which is [DefaultServeConfig()]. *)
Theorem Validate_zero_gives_defaults :
  snd (Validate zeroServeConfig) = None
  ∧ Port (fst (Validate zeroServeConfig)) = 8080
  ∧ IdleTimeout (fst (Validate zeroServeConfig)) = 60 * 1000000000
  ∧ ReadTimeout (fst (Validate zeroServeConfig)) = 5 * 1000000000
  ∧ WriteTimeout (fst (Validate zeroServeConfig)) = 10 * 1000000000
  ∧ ShutdownTimeout (fst (Validate zeroServeConfig)) = 10 * 1000000000
  ∧ fst (Validate zeroServeConfig) = DefaultServeConfig.
Proof. repeat split; reflexivity. Qed.

(** C10. [Validate] returns an error exactly when the deferred TLS error
    slot is non-nil. After the backfill the port and the four timeouts
    are positive, so none of the five rejections for a value [<= 0] can
    fire, and the only error ever returned is the one wrapping the
    deferred TLS error. *)
Theorem Validate_error_iff_tlsErr (c : ServeConfig) :
  (snd (Validate c) ≠ None ↔ tlsErr c ≠ None)
  ∧ (0 < Port (setDefaultZeroValues c)
     ∧ 0 < IdleTimeout (setDefaultZeroValues c)
     ∧ 0 < ReadTimeout (setDefaultZeroValues c)
     ∧ 0 < WriteTimeout (setDefaultZeroValues c)
     ∧ 0 < ShutdownTimeout (setDefaultZeroValues c))
  ∧ snd (Validate c)
    = match tlsErr c with
      | Some e =>
          Some (fmt_Errorf "tls must be configured correctly if provided: %w"
                  [any_error e])
      | None => None
      end.
Proof.
  rewrite Validate_unfold; cbn.
  split; [|split; [apply setDefaultZeroValues_positive | reflexivity]].
  destruct (tlsErr c); split; congruence.
Qed.

(** C7. When loading the key pair, reading the CA file or parsing the CA
    certificates fails, [WithTLS] still returns an option value, one that
    carries the error; applying it to any ServeConfig stores that error in
    the deferred slot (and no TLS configuration), and [Validate] on the
    resulting configuration returns an error, which wraps the stored one. *)
Theorem WithTLS_failure_is_deferred
    (tls_LoadX509KeyPair : string -> string -> tls_Certificate + error)
    (os_ReadFile : string -> string + error)
    (x509_AppendCertsFromPEM : string -> option x509_CertPool)
    (caFile ceFile keyFile : string) (cfg : ServeConfig) :
  WithTLS_fails tls_LoadX509KeyPair os_ReadFile x509_AppendCertsFromPEM
    caFile ceFile keyFile →
  ∃ e : error,
    WithTLS tls_LoadX509KeyPair os_ReadFile x509_AppendCertsFromPEM
      caFile ceFile keyFile = tlsOption None (Some e)
    ∧ tlsErr (apply (tlsOption None (Some e)) cfg) = Some e
    ∧ TLS (apply (tlsOption None (Some e)) cfg) = None
    ∧ snd (Validate (apply (tlsOption None (Some e)) cfg))
      = Some (fmt_Errorf "tls must be configured correctly if provided: %w"
                [any_error e]).
Proof.
  unfold WithTLS_fails, WithTLS.
  intros Hfail.
  assert (Hend : ∀ e, tlsErr (apply (tlsOption None (Some e)) cfg) = Some e
                      ∧ TLS (apply (tlsOption None (Some e)) cfg) = None
                      ∧ snd (Validate (apply (tlsOption None (Some e)) cfg))
                        = Some (fmt_Errorf
                            "tls must be configured correctly if provided: %w"
                            [any_error e])).
  { intros e. rewrite Validate_unfold. repeat split. }
  destruct (tls_LoadX509KeyPair ceFile keyFile) as [ce|e].
  - destruct (os_ReadFile caFile) as [ca|e].
    + rewrite Hfail. eexists; split; [reflexivity | apply Hend].
    + eexists; split; [reflexivity | apply Hend].
  - eexists; split; [reflexivity | apply Hend].
Qed.

(** C7 on a platform where the certificate file is missing. *)
Lemma WithTLS_failure_is_deferred_witness :
  ∃ e : error,
    WithTLS missing_LoadX509KeyPair sample_ReadFile
      sample_AppendCertsFromPEM "ca.pem" "cert.pem" "key.pem"
    = tlsOption None (Some e)
    ∧ tlsErr (apply (tlsOption None (Some e)) zeroServeConfig) = Some e
    ∧ TLS (apply (tlsOption None (Some e)) zeroServeConfig) = None
    ∧ snd (Validate (apply (tlsOption None (Some e)) zeroServeConfig))
      = Some (fmt_Errorf "tls must be configured correctly if provided: %w"
                [any_error e]).
Proof.
  apply (WithTLS_failure_is_deferred missing_LoadX509KeyPair sample_ReadFile
           sample_AppendCertsFromPEM "ca.pem" "cert.pem" "key.pem"
           zeroServeConfig).
  exact I.
Defined.

(** * Properties of the responder and of the ancillary middleware *)



(** When the value is encoded, the callback is not called and the
    handler sets the content type, writes the status and the data. *)
Lemma JSON_success (json_Marshal : any → string + error) (rs : Responder)
    (code : Z) (from : any) (data : string) (w : ResponseWriter)
    (req : http_Request) :
  json_Marshal from = inl data →
  snd (Responder_JSON json_Marshal rs code from) = []
  ∧ Handler_ServeHTTP (fst (Responder_JSON json_Marshal rs code from)) w req
    = Write data
        (WriteHeader code (Header_Set "Content-Type" "application/json" w)).
Proof.
  intros Hok. unfold Responder_JSON. rewrite Hok. split; reflexivity.
Qed.

(** The redirect branch of [TrailingSlashRedirector]. *)
Lemma TrailingSlashRedirector_redirects (next : http_Handler)
    (w : ResponseWriter) (req : http_Request) :
  URL_Path req ≠ "/" → strings_HasSuffix (URL_Path req) "/" = true →
  TrailingSlashRedirector next w req
  = http_Redirect (Header_assign "Content-Type" [] w) req
      (if decide (URL_RawQuery req = "")
       then strings_TrimRight (URL_Path req) "/"
       else strings_TrimRight (URL_Path req) "/"
              +:+ "?" +:+ URL_RawQuery req)
      http_StatusPermanentRedirect.
Proof.
  intros Hroot Hslash. unfold TrailingSlashRedirector, http_HandlerFunc.
  rewrite Hslash.
  destruct (String.eqb_spec (URL_Path req) "/") as [|_]; [done|].
  cbn [negb andb].
  destruct (String.eqb_spec (URL_RawQuery req) "") as [Hq|Hq].
  - rewrite decide_True by done. reflexivity.
  - rewrite decide_False by done. reflexivity.
Qed.

(** The other branch: the writer is returned as it was, and [next] is
    not called. *)
Lemma TrailingSlashRedirector_otherwise (next : http_Handler)
    (w : ResponseWriter) (req : http_Request) :
  URL_Path req = "/" ∨ strings_HasSuffix (URL_Path req) "/" = false →
  TrailingSlashRedirector next w req = w.
Proof.
  unfold TrailingSlashRedirector, http_HandlerFunc.
  intros [-> | ->]; [reflexivity|]. by rewrite andb_false_r.
Qed.

(** C2, the code at the failing input. The handler built by
    [TrailingSlashRedirector] never calls the wrapped handler: its action
    is the same whatever [next] is. For the request [GET /users], which
    has no trailing slash, the inner handler alone would answer 200 "ok",
    and the wrapped one leaves the writer without any call. *)
Theorem TrailingSlashRedirector_drops_next :
  (∀ next next' w req,
     TrailingSlashRedirector next w req
     = TrailingSlashRedirector next' w req)
  ∧ Calls (ok_handler newResponseWriter users_request)
    = [call_WriteHeader 200; call_Write "ok"]
  ∧ Calls (TrailingSlashRedirector ok_handler newResponseWriter
             users_request)
    = [].
Proof. repeat split. Qed.

(** * Properties of the router *)

Section RouterFacts.

Variable growcap : nat → nat → nat.

Lemma set_arrays_id σ : set_arrays (arrays σ) σ = σ.
Proof. by destruct σ. Qed.

Lemma bind_Some {A B : Type} (c : M A) (k : A → M B) σ a σ' :
  c σ = Some (a, σ') → bind c k σ = k a σ'.
Proof. unfold bind. by intros ->. Qed.

Lemma get_router_Some σ p rt :
  routers σ !! p = Some rt → get_router p σ = Some (rt, σ).
Proof. unfold get_router. by intros ->. Qed.

Lemma elems_wf σ s :
  wf_slice σ s →
  elems s σ = Some (contents σ s, σ) ∧ length (contents σ s) = len s.
Proof.
  unfold wf_slice, elems, contents. destruct (ptr s) as [a|].
  - intros (arr & -> & Hle & Hcap). split; [done|].
    rewrite length_take. lia.
  - by intros [-> _].
Qed.

Lemma not_fresh_array σ a arr :
  arrays σ !! a = Some arr → a ≠ fresh (dom (arrays σ)).
Proof.
  intros H Heq. apply (is_fresh (dom (arrays σ))). rewrite <- Heq.
  apply elem_of_dom. eauto.
Qed.

Lemma not_fresh_router σ p rt :
  routers σ !! p = Some rt → p ≠ fresh (dom (routers σ)).
Proof.
  intros H Heq. apply (is_fresh (dom (routers σ))). rewrite <- Heq.
  apply elem_of_dom. eauto.
Qed.

Lemma store_at_eval σ s a arr i xs :
  ptr s = Some a → arrays σ !! a = Some arr →
  (i + length xs ≤ length arr)%nat →
  store_at s i xs σ
  = Some (tt, set_arrays
                (<[a := take i arr ++ xs ++ drop (i + length xs) arr]>
                   (arrays σ)) σ).
Proof.
  intros Hs Ha Hle. unfold store_at. destruct xs as [|x xs].
  - cbn. rewrite Nat.add_0_r, take_drop, insert_id by done.
    by rewrite set_arrays_id.
  - rewrite Hs, Ha. by rewrite decide_True.
Qed.

(** A slice that stays well formed, with the same elements, when the
    store changes only at other arrays. *)
Lemma wf_slice_frame σ σ' t :
  wf_slice σ t →
  (∀ a, ptr t = Some a → arrays σ' !! a = arrays σ !! a) →
  wf_slice σ' t ∧ contents σ' t = contents σ t.
Proof.
  unfold wf_slice, contents. destruct (ptr t) as [a|]; [|done].
  intros (arr & Ha & Hle & Hcap) Hsame.
  rewrite (Hsame a eq_refl), Ha. eauto.
Qed.

(** [append]: the result holds the old elements followed by the new
    ones; it reuses the array of [s] or takes one that was not
    allocated; every other array is left as it was. *)
Lemma append_spec σ s xs :
  wf_slice σ s →
  ∃ s' σ',
    append growcap s xs σ = Some (s', σ')
    ∧ routers σ' = routers σ ∧ muxes σ' = muxes σ
    ∧ wf_slice σ' s'
    ∧ contents σ' s' = contents σ s ++ xs
    ∧ (ptr s' = ptr s ∨ ∃ a, ptr s' = Some a ∧ arrays σ !! a = None)
    ∧ (∀ a, ptr s ≠ Some a → is_Some (arrays σ !! a) →
            arrays σ' !! a = arrays σ !! a).
Proof.
  intros Hwf. destruct (elems_wf _ _ Hwf) as [Hel Hlen].
  unfold append. case_decide as Hcap.
  - (* in place *)
    unfold wf_slice in Hwf. unfold contents in *.
    destruct (ptr s) as [a|] eqn:Hptr.
    + destruct Hwf as (arr & Ha & Hle & Hc). rewrite Ha in *.
      erewrite bind_Some by (eapply store_at_eval; eauto; lia).
      eexists _, _. split; [reflexivity|]. cbn.
      split; [done|]. split; [done|].
      split.
      { unfold wf_slice; cbn. rewrite lookup_insert_eq.
        eexists; split; [done|]. split; [lia|].
        rewrite !length_app, length_take, length_drop. lia. }
      split.
      { rewrite lookup_insert_eq.
        rewrite app_assoc, take_app_length'; [done|].
        rewrite length_app, length_take. lia. }
      split; [by left|].
      intros b Hb _. rewrite lookup_insert_ne; [done|congruence].
    + destruct Hwf as [Hl Hc]. rewrite Hl, Hc in *.
      assert (xs = []) as -> by (destruct xs; [done|cbn in Hcap; lia]).
      eexists _, _. split; [reflexivity|]. cbn.
      repeat split; eauto.
  - (* a new array *)
    erewrite bind_Some by exact Hel.
    eexists _, _. split; [reflexivity|].
    cbn [routers muxes arrays set_arrays ptr len cap].
    set (a := fresh (dom (arrays σ))).
    set (n := (len s + length xs)%nat).
    set (c := Nat.max n (growcap (cap s) n)).
    assert (Hfresh : arrays σ !! a = None).
    { apply not_elem_of_dom, is_fresh. }
    split; [done|]. split; [done|].
    split.
    { unfold wf_slice; cbn [routers muxes arrays set_arrays ptr len cap].
      rewrite lookup_insert_eq.
      eexists; split; [done|]. split; [lia|].
      rewrite !length_app, length_replicate, Hlen. lia. }
    split.
    { unfold contents at 1; cbn [routers muxes arrays set_arrays ptr len cap].
      rewrite lookup_insert_eq.
      rewrite app_assoc, take_app_length'; [done|].
      rewrite length_app, Hlen. done. }
    split; [right; eauto|].
    intros b _ [arr Hb]. rewrite lookup_insert_ne; [done|].
    intros <-. congruence.
Qed.

Lemma elems_store σ s ys σ' : elems s σ = Some (ys, σ') → σ' = σ.
Proof.
  unfold elems. destruct (ptr s) as [a|]; [|congruence].
  destruct (arrays σ !! a); congruence.
Qed.

Lemma middlewares_Some σ p xs :
  middlewares p σ = Some xs ↔
  ∃ rt, routers σ !! p = Some rt ∧ elems (mws rt) σ = Some (xs, σ).
Proof.
  unfold middlewares, bind, get_router.
  destruct (routers σ !! p) as [rt|].
  2: { split; [done | intros (rt & ? & _); done]. }
  destruct (elems (mws rt) σ) as [[ys σ']|] eqn:Hel.
  - apply elems_store in Hel as Hσ. subst σ'.
    split; [intros [= ->]; eauto | intros (rt' & [= <-] & Hel'); congruence].
  - split; [done | intros (rt' & [= <-] & Hel'); congruence].
Qed.

Lemma middlewares_wf σ p rt :
  routers σ !! p = Some rt → wf_slice σ (mws rt) →
  middlewares p σ = Some (contents σ (mws rt)).
Proof.
  intros Hp Hwf. apply middlewares_Some. exists rt. split; [done|].
  by apply elems_wf.
Qed.

Lemma wrap_range_Some fs h σ :
  wrap_range (Some <$> fs) h σ = Some (foldl (λ k mw, mw k) h fs, σ).
Proof. revert h. induction fs as [|f fs IH]; intros h; cbn; [done|apply IH]. Qed.

Lemma foldl_reverse_onion fs h :
  foldl (λ k (mw : http_Handler → http_Handler), mw k) h (reverse fs)
  = onion fs h.
Proof.
  induction fs as [|f fs IH]; [done|].
  rewrite reverse_cons, foldl_snoc, IH. done.
Qed.

Lemma wrap_spec σ p fs h :
  middlewares p σ = Some (Some <$> fs) →
  wrap p h σ = Some (onion fs h, σ).
Proof.
  intros (rt & Hp & Hel)%middlewares_Some.
  unfold wrap. erewrite bind_Some by (by apply get_router_Some).
  destruct (0 <? len (mws rt))%nat eqn:Hlen.
  - erewrite bind_Some by exact Hel.
    unfold slices_Backward. rewrite <- fmap_reverse, wrap_range_Some.
    by rewrite foldl_reverse_onion.
  - apply Nat.ltb_ge in Hlen.
    assert (fs = []) as ->; [|done].
    unfold elems in Hel. destruct (ptr (mws rt)) as [a|].
    + destruct (arrays σ !! a) as [arr|]; [|done].
      assert (len (mws rt) = 0%nat) as Hz by lia.
      rewrite Hz in Hel. cbn in Hel. destruct fs; [done|]. naive_solver.
    + destruct fs; [done|]. naive_solver.
Qed.


(** [Use] on a well-formed store. *)
Lemma Use_spec σ c rc ys :
  store_ok σ → routers σ !! c = Some rc →
  ∃ s' σ',
    Use growcap c ys σ = Some (tt, σ')
    ∧ store_ok σ'
    ∧ muxes σ' = muxes σ
    ∧ routers σ'
      = <[c := mkRouter (m rc) (r rc) (prefix rc) s']> (routers σ)
    ∧ middlewares c σ' = Some (contents σ (mws rc) ++ ys)
    ∧ (∀ q, q ≠ c → middlewares q σ' = middlewares q σ).
Proof.
  intros Hok Hc.
  pose proof (ok_slice _ Hok _ _ Hc) as Hwf.
  destruct (append_spec σ (mws rc) ys Hwf)
    as (s' & σ1 & Happ & Hr & Hm & Hwf' & Hcont & Hptr & Hframe).
  assert (Hother : ∀ q rq, q ≠ c → routers σ !! q = Some rq →
            wf_slice σ1 (mws rq)
            ∧ contents σ1 (mws rq) = contents σ (mws rq)).
  { intros q rq Hq Hrq. apply wf_slice_frame.
    - eapply ok_slice; eauto.
    - intros a Ha. pose proof (ok_slice _ Hok _ _ Hrq) as Hwq.
      unfold wf_slice in Hwq. rewrite Ha in Hwq.
      destruct Hwq as (arr & Harr & _).
      apply Hframe; [|by eauto].
      intros Hs. by apply (ok_separate _ Hok q c rq rc Hq Hrq Hc a). }
  eexists s', _. unfold Use.
  erewrite bind_Some by (by apply get_router_Some).
  erewrite bind_Some by exact Happ.
  unfold assign_mws.
  erewrite bind_Some by (apply get_router_Some; by rewrite Hr).
  split; [reflexivity|].
  set (σ' := set_routers _ σ1).
  assert (Hc' : routers σ' !! c
                = Some (mkRouter (m rc) (r rc) (prefix rc) s')).
  { subst σ'; cbn. by rewrite lookup_insert_eq. }
  assert (Hq' : ∀ q, q ≠ c → routers σ' !! q = routers σ !! q).
  { intros q Hq. subst σ'; cbn. by rewrite lookup_insert_ne, Hr. }
  assert (Hwfσ' : ∀ t, wf_slice σ1 t → wf_slice σ' t) by done.
  assert (Hok' : store_ok σ').
  { split.
    - intros p rt Hp. destruct (decide (p = c)) as [->|Hne].
      + rewrite Hc' in Hp. injection Hp as <-. by apply Hwfσ'.
      + rewrite Hq' in Hp by done. apply Hwfσ'. by eapply Hother.
    - intros p rt Hp. subst σ'; cbn. rewrite Hm.
      destruct (decide (p = c)) as [->|Hne].
      + rewrite Hc' in Hp. injection Hp as <-. cbn. by eapply ok_mux.
      + rewrite Hq' in Hp by done. by eapply ok_mux.
    - assert (Hsep : ∀ q rq, q ≠ c → routers σ !! q = Some rq →
                separate s' (mws rq)).
      { intros q rq Hq Hrq a Ha Hb.
        destruct Hptr as [Hsame|(b & Hb' & Hnone)].
        - rewrite Hsame in Ha.
          by apply (ok_separate _ Hok c q rc rq (not_eq_sym Hq) Hc Hrq a).
        - pose proof (ok_slice _ Hok _ _ Hrq) as Hwq.
          unfold wf_slice in Hwq. rewrite Hb in Hwq.
          destruct Hwq as (arr & Harr & _). congruence. }
      intros p q rp rq Hpq Hp Hq.
      destruct (decide (p = c)) as [->|Hpc];
        destruct (decide (q = c)) as [->|Hqc]; [done| | |].
      + rewrite Hc' in Hp. injection Hp as <-. cbn.
        rewrite Hq' in Hq by done. by eapply Hsep.
      + rewrite Hc' in Hq. injection Hq as <-. cbn.
        rewrite Hq' in Hp by done.
        intros a Ha Hb. by eapply (Hsep p rp Hpc Hp a).
      + rewrite Hq' in Hp, Hq by done.
        exact (ok_separate _ Hok p q rp rq Hpq Hp Hq). }
  split; [done|]. split; [exact Hm|].
  split; [subst σ'; cbn; by rewrite Hr|].
  split.
  - erewrite middlewares_wf by (eauto; apply (ok_slice _ Hok' _ _ Hc')).
    cbn. f_equal. exact Hcont.
  - intros q Hq. destruct (routers σ !! q) as [rq|] eqn:Hrq.
    + destruct (Hother q rq Hq Hrq) as [Hw Hcq].
      erewrite (middlewares_wf σ' q rq), (middlewares_wf σ q rq); eauto.
      * by f_equal.
      * by eapply ok_slice.
      * by rewrite Hq'.
    + unfold middlewares, bind, get_router. by rewrite Hq', Hrq.
Qed.


Lemma assign_mws_eval σ p rt s :
  routers σ !! p = Some rt →
  assign_mws p s σ
  = Some (tt, set_routers
                (<[p := mkRouter (m rt) (r rt) (prefix rt) s]> (routers σ))
                σ).
Proof.
  intros Hp. unfold assign_mws.
  by erewrite bind_Some by (by apply get_router_Some).
Qed.

Lemma copy_eval σ dst src a arr xs :
  ptr dst = Some a → arrays σ !! a = Some arr →
  elems src σ = Some (xs, σ) → length xs = len src →
  (Nat.min (len dst) (len src) ≤ length arr)%nat →
  copy dst src σ
  = Some (Nat.min (len dst) (len src),
          set_arrays
            (<[a := take (Nat.min (len dst) (len src)) xs
                    ++ drop (Nat.min (len dst) (len src)) arr]> (arrays σ)) σ).
Proof.
  intros Hd Ha Hel Hlen Hle. unfold copy.
  erewrite bind_Some by exact Hel.
  erewrite bind_Some.
  2: { eapply store_at_eval; [done..|]. rewrite length_take. lia. }
  unfold ret. rewrite length_take, Hlen. cbn [take app Nat.add].
  by replace (Nat.min (Nat.min (len dst) (len src)) (len src))%nat
    with (Nat.min (len dst) (len src)) by lia.
Qed.

Lemma append_in_place σ s a arr xs :
  ptr s = Some a → arrays σ !! a = Some arr →
  (len s + length xs ≤ cap s)%nat → (cap s ≤ length arr)%nat →
  append growcap s xs σ
  = Some ({| ptr := Some a; len := len s + length xs; cap := cap s |},
          set_arrays
            (<[a := take (len s) arr ++ xs
                    ++ drop (len s + length xs) arr]> (arrays σ)) σ).
Proof.
  intros Hs Ha Hle Hcap. unfold append. rewrite decide_True by done.
  erewrite bind_Some by (eapply store_at_eval; [done..|lia]).
  unfold ret. by rewrite Hs.
Qed.

(** [Group] in closed form: one new array, holding the parent's
    elements followed by the new middlewares, and one new router. *)
Lemma Group_eval σ p rp pfx ms :
  routers σ !! p = Some rp → wf_slice σ (mws rp) →
  Group growcap p pfx ms σ
  = Some (fresh (dom (routers σ)),
          {| arrays := <[fresh (dom (arrays σ)) :=
                          contents σ (mws rp) ++ ms]> (arrays σ);
             muxes := muxes σ;
             routers :=
               <[fresh (dom (routers σ)) :=
                  {| m := m rp; r := r rp;
                     prefix := prefix rp +:+ "/" +:+ strings_Trim pfx "/";
                     mws := {| ptr := Some (fresh (dom (arrays σ)));
                               len := len (mws rp) + length ms;
                               cap := len (mws rp) + length ms |} |}]>
                 (routers σ) |}).
Proof.
  intros Hp Hwf.
  destruct (elems_wf _ _ Hwf) as [Hel Hlen].
  set (a := fresh (dom (arrays σ))). set (c := fresh (dom (routers σ))).
  set (xs := contents σ (mws rp)) in *.
  set (n := len (mws rp)) in *.
  assert (Hpc : p ≠ c) by (by eapply not_fresh_router).
  unfold Group.
  erewrite bind_Some by (by apply get_router_Some).
  unfold bind at 1, make. rewrite decide_True by lia. fold a.
  unfold bind at 1, new_Router.
  cbn [routers set_arrays set_routers arrays muxes]. fold c.
  erewrite bind_Some
    by (apply get_router_Some; cbn; apply lookup_insert_eq).
  erewrite bind_Some
    by (apply get_router_Some; cbn; by rewrite lookup_insert_ne).
  (* copy *)
  erewrite bind_Some.
  2: { eapply copy_eval; [done | cbn; apply lookup_insert_eq | | done |].
       - unfold elems, xs, contents in *.
         destruct (ptr (mws rp)) as [b|]; [|done]. cbn.
         destruct (arrays σ !! b) as [arr|] eqn:Hb; [|done].
         rewrite lookup_insert_ne; [by rewrite Hb|].
         apply not_eq_sym. by eapply not_fresh_array.
       - cbn. rewrite length_replicate. fold n. lia. }
  cbn [routers set_arrays set_routers arrays muxes mws len ptr cap].
  fold n. rewrite Nat.min_id, (take_ge xs n), insert_insert_eq by lia.
  erewrite bind_Some
    by (apply get_router_Some; cbn; apply lookup_insert_eq).
  (* append, in place *)
  erewrite bind_Some.
  2: { eapply append_in_place; [done | cbn; apply lookup_insert_eq |
                                cbn; lia |].
       cbn. rewrite length_app, length_drop, length_replicate. lia. }
  erewrite bind_Some
    by (apply assign_mws_eval; cbn; apply lookup_insert_eq).
  unfold ret, set_routers, set_arrays.
  cbn [routers arrays muxes m r prefix mws len ptr cap].
  rewrite !insert_insert_eq.
  rewrite take_app_length' by done.
  rewrite drop_ge, app_nil_r; [done|].
  rewrite length_app, length_drop, length_replicate. lia.
Qed.


(** [Group] on a well-formed store. *)
Lemma Group_spec σ p rp pfx ms :
  store_ok σ → routers σ !! p = Some rp →
  ∃ c rc σ',
    Group growcap p pfx ms σ = Some (c, σ')
    ∧ store_ok σ'
    ∧ routers σ !! c = None
    ∧ routers σ' = <[c := rc]> (routers σ)
    ∧ muxes σ' = muxes σ
    ∧ m rc = m rp ∧ r rc = r rp
    ∧ prefix rc = prefix rp +:+ "/" +:+ strings_Trim pfx "/"
    ∧ separate (mws rc) (mws rp)
    ∧ middlewares c σ' = Some (contents σ (mws rp) ++ ms)
    ∧ (∀ q, q ≠ c → middlewares q σ' = middlewares q σ).
Proof.
  intros Hok Hp.
  pose proof (ok_slice _ Hok _ _ Hp) as Hwf.
  destruct (elems_wf _ _ Hwf) as [_ Hlen].
  eexists _, _, _. split; [by apply Group_eval|].
  set (a := fresh (dom (arrays σ))). set (c := fresh (dom (routers σ))).
  set (rc := mkRouter _ _ _ _). set (σ' := mkStore _ _ _).
  assert (Ha : arrays σ !! a = None) by apply not_elem_of_dom, is_fresh.
  assert (Hc : routers σ !! c = None) by apply not_elem_of_dom, is_fresh.
  assert (Hold : ∀ q rq, routers σ !! q = Some rq →
            wf_slice σ' (mws rq)
            ∧ contents σ' (mws rq) = contents σ (mws rq)).
  { intros q rq Hq. apply wf_slice_frame; [by eapply ok_slice|].
    intros b Hb. subst σ'; cbn. rewrite lookup_insert_ne; [done|].
    intros <-. pose proof (ok_slice _ Hok _ _ Hq) as Hwq.
    unfold wf_slice in Hwq. rewrite Hb in Hwq.
    destruct Hwq as (arr & Harr & _). congruence. }
  assert (Hfresh : ∀ q rq, routers σ !! q = Some rq →
            ptr (mws rq) ≠ Some a).
  { intros q rq Hq Hb. pose proof (ok_slice _ Hok _ _ Hq) as Hwq.
    unfold wf_slice in Hwq. rewrite Hb in Hwq.
    destruct Hwq as (arr & Harr & _). congruence. }
  assert (Hwc : wf_slice σ' (mws rc)).
  { unfold wf_slice; subst rc σ'; cbn [arrays ptr len cap mws].
    rewrite lookup_insert_eq.
    eexists; split; [done|]. rewrite length_app, Hlen. lia. }
  assert (Hok' : store_ok σ').
  { split.
    - intros q rq. subst σ'; cbn. rewrite lookup_insert.
      case_decide as Hq; [intros [= <-]; exact Hwc|].
      intros Hrq. by eapply Hold.
    - intros q rq. subst σ'; cbn. rewrite lookup_insert.
      case_decide as Hq; [intros [= <-]; cbn; by eapply ok_mux|].
      intros Hrq. by eapply ok_mux.
    - intros q q' rq rq' Hne. subst σ'; cbn. rewrite !lookup_insert.
      repeat case_decide; subst; try done.
      + intros [= <-] Hq' b [= <-]. by eapply Hfresh.
      + intros Hq [= <-] b Hb. cbn. intros [= <-]. by eapply Hfresh.
      + intros Hq Hq'. exact (ok_separate _ Hok q q' rq rq' Hne Hq Hq'). }
  split; [done|]. split; [done|]. split; [done|]. split; [done|].
  split; [done|]. split; [done|]. split; [done|].
  split; [intros b [= <-]; by eapply Hfresh|].
  split.
  - erewrite middlewares_wf; [|subst σ'; cbn; apply lookup_insert_eq|done].
    f_equal. unfold contents at 1; subst rc σ'.
    cbn [arrays ptr len cap mws]. rewrite lookup_insert_eq.
    apply take_ge. rewrite length_app, Hlen. lia.
  - intros q Hq. destruct (routers σ !! q) as [rq|] eqn:Hrq.
    + destruct (Hold q rq Hrq) as [Hw Hcq].
      erewrite (middlewares_wf σ' q rq), (middlewares_wf σ q rq); eauto.
      * by f_equal.
      * by eapply ok_slice.
      * subst σ'; cbn. by rewrite lookup_insert_ne.
    + unfold middlewares, bind, get_router. subst σ'; cbn.
      by rewrite lookup_insert_ne, Hrq.
Qed.


(** [ServeMux.Handle] and [handle] in closed form. *)
Lemma handle_eval σ p rt fs tbl method pattern factory :
  routers σ !! p = Some rt →
  middlewares p σ = Some (Some <$> fs) →
  muxes σ !! m rt = Some tbl →
  handle p method pattern factory σ
  = Some (tt, set_muxes
                (<[m rt := tbl ++ [(route_pattern method (prefix rt) pattern,
                                    onion fs (Handler_ServeHTTP
                                                (factory (r rt))))]]>
                   (muxes σ)) σ).
Proof.
  intros Hp Hms Hm. unfold handle.
  erewrite bind_Some by (by apply get_router_Some).
  erewrite bind_Some by (by apply wrap_spec).
  unfold ServeMux_Handle. by rewrite Hm.
Qed.


Lemma wrap_range_fst xs h σ σ' :
  fst <$> wrap_range xs h σ = fst <$> wrap_range xs h σ'.
Proof.
  revert h. induction xs as [|[mw|] xs IH]; intros h; cbn; [done| |done].
  apply IH.
Qed.

Lemma wrap_wf σ p rt h :
  routers σ !! p = Some rt → wf_slice σ (mws rt) →
  wrap p h σ = wrap_range (slices_Backward (contents σ (mws rt))) h σ.
Proof.
  intros Hp Hwf. destruct (elems_wf _ _ Hwf) as [Hel Hlen].
  unfold wrap. erewrite bind_Some by (by apply get_router_Some).
  destruct (0 <? len (mws rt))%nat eqn:Hpos.
  - by erewrite bind_Some by exact Hel.
  - apply Nat.ltb_ge in Hpos.
    destruct (contents σ (mws rt)); [done|cbn in Hlen; lia].
Qed.

(** C3. On a well-formed store, [p.Group(prefix, ms...)] returns a new
    router [c] whose middleware list is [p]'s list followed by [ms], held
    in a backing array of its own, and leaves [p]'s list as it was. Any
    [c.Use(extra...)] after that appends [extra] to [c]'s list and leaves
    [p]'s list as it was: [p.wrap] yields the same handler as before the
    group was made, and a route registered on [p] is wrapped by [p]'s
    middlewares only. *)
Theorem Group_then_Use_leaves_parent σ p rp pfx ms :
  store_ok σ → routers σ !! p = Some rp →
  middlewares p σ = Some (contents σ (mws rp))
  ∧ ∃ c rc σ1,
      Group growcap p pfx ms σ = Some (c, σ1)
      ∧ c ≠ p ∧ store_ok σ1
      ∧ routers σ1 !! c = Some rc ∧ separate (mws rc) (mws rp)
      ∧ middlewares c σ1 = Some (contents σ (mws rp) ++ ms)
      ∧ middlewares p σ1 = Some (contents σ (mws rp))
      ∧ ∀ extra, ∃ σ2,
          Use growcap c extra σ1 = Some (tt, σ2)
          ∧ store_ok σ2
          ∧ middlewares c σ2 = Some ((contents σ (mws rp) ++ ms) ++ extra)
          ∧ middlewares p σ2 = Some (contents σ (mws rp))
          ∧ (∀ h, fst <$> wrap p h σ2 = fst <$> wrap p h σ)
          ∧ (∀ fs tbl method pattern factory,
               contents σ (mws rp) = Some <$> fs →
               muxes σ !! m rp = Some tbl →
               handle p method pattern factory σ2
               = Some (tt,
                       set_muxes
                         (<[m rp :=
                             tbl ++ [(route_pattern method (prefix rp) pattern,
                                      onion fs (Handler_ServeHTTP
                                                  (factory (r rp))))]]>
                            (muxes σ2)) σ2)).
Proof.
  intros Hok Hp.
  pose proof (ok_slice _ Hok _ _ Hp) as Hwf.
  pose proof (middlewares_wf _ _ _ Hp Hwf) as Hmp.
  split; [exact Hmp|].
  destruct (Group_spec σ p rp pfx ms Hok Hp)
    as (c & rc & σ1 & HG & Hok1 & Hc & Hr1 & Hm1 & _ & _ & _ & Hsep & Hmc
        & Hframe1).
  assert (Hcp : c ≠ p) by (intros ->; congruence).
  assert (Hc1 : routers σ1 !! c = Some rc)
    by (rewrite Hr1; apply lookup_insert_eq).
  assert (Hp1 : routers σ1 !! p = Some rp)
    by (by rewrite Hr1, lookup_insert_ne).
  exists c, rc, σ1.
  split; [exact HG|]. split; [exact Hcp|]. split; [exact Hok1|].
  split; [exact Hc1|]. split; [exact Hsep|]. split; [exact Hmc|].
  split; [by rewrite Hframe1|].
  intros extra.
  destruct (Use_spec σ1 c rc extra Hok1 Hc1)
    as (s' & σ2 & HU & Hok2 & Hm2 & Hr2 & Hmc2 & Hframe2).
  assert (Hp2 : routers σ2 !! p = Some rp)
    by (by rewrite Hr2, lookup_insert_ne).
  assert (Hmp2 : middlewares p σ2 = Some (contents σ (mws rp)))
    by (by rewrite Hframe2, Hframe1).
  exists σ2.
  split; [exact HU|]. split; [exact Hok2|].
  split.
  { rewrite Hmc2. f_equal. f_equal.
    pose proof (middlewares_wf _ _ _ Hc1 (ok_slice _ Hok1 _ _ Hc1)) as Hmc1.
    congruence. }
  split; [exact Hmp2|].
  split.
  - intros h.
    rewrite (wrap_wf σ2 p rp h Hp2 (ok_slice _ Hok2 _ _ Hp2)).
    rewrite (wrap_wf σ p rp h Hp Hwf).
    pose proof (middlewares_wf _ _ _ Hp2 (ok_slice _ Hok2 _ _ Hp2)) as Hmp2'.
    assert (contents σ2 (mws rp) = contents σ (mws rp)) as -> by congruence.
    apply wrap_range_fst.
  - intros fs tbl method pattern factory Hfs Htbl.
    apply handle_eval; [exact Hp2| by rewrite Hmp2, Hfs |].
    by rewrite Hm2, Hm1.
Qed.


End RouterFacts.

Lemma strings_TrimRight_single s cutset c :
  strings_TrimRight s cutset = String c EmptyString →
  inCutset c cutset = false.
Proof.
  destruct s as [|d rest]; cbn; [done|].
  destruct (strings_TrimRight rest cutset) as [|e kept].
  - destruct (inCutset d cutset) eqn:Hd; [done|]. by intros [= <-].
  - by intros [= _ ?].
Qed.

Lemma string_app_inv_head (a b c : string) : a +:+ b = a +:+ c → b = c.
Proof. induction a as [|x a IH]; cbn; [done|]. intros [= H]. by apply IH. Qed.

(** C4, the code at the failing input. No call of [handle] registers a
    pattern whose path is ["/"]: the trailing slashes are trimmed from
    the whole path, the root path included. Registering the pattern ["/"]
    with [Get] on a new router (empty prefix) hands the dispatch table
    the pattern ["GET "], with an empty path. *)
Theorem handle_strips_root_path :
  (∀ method pfx pattern,
     route_pattern method pfx pattern ≠ method +:+ " /")
  ∧ route_pattern "GET" "" "/" = "GET "
  ∧ match (do p <- NewRouter 0%nat sample_fn;
           do _ <- Get p "/" hello;
           ret p) emptyStore with
    | Some (p, σ) => (λ t : ServeMux, fst <$> t) <$> table p σ
    | None => None
    end = Some ["GET "].
Proof.
  split; [|split; [reflexivity | by vm_compute]].
  intros method pfx pattern. unfold route_pattern. intros Heq.
  apply string_app_inv_head in Heq.
  apply (string_app_inv_head " ") in Heq.
  by apply strings_TrimRight_single in Heq.
Qed.


Lemma sample_Store_ok : store_ok sample_Store.
Proof.
  split; unfold sample_Store; cbn [routers muxes arrays].
  - intros p rt [<- <-]%lookup_singleton_Some.
    unfold wf_slice; cbn. rewrite lookup_singleton_eq.
    eexists; split; [done|]. split; [lia | reflexivity].
  - intros p rt [<- <-]%lookup_singleton_Some. cbn.
    by rewrite lookup_singleton_eq.
  - intros p q rp rq Hne [<- _]%lookup_singleton_Some
      [<- _]%lookup_singleton_Some. done.
Qed.

(** C3 on the sample store: a group with one middleware, with the
    doubling growth policy. *)
Lemma Group_then_Use_leaves_parent_witness :
  middlewares 0%nat sample_Store
  = Some (contents sample_Store
            {| ptr := Some 0%nat; len := 1; cap := 2 |})
  ∧ ∃ c rc σ1,
      Group doubling 0%nat "v1" [Some (bracket "B>" "<B")] sample_Store
      = Some (c, σ1)
      ∧ c ≠ 0%nat ∧ store_ok σ1
      ∧ routers σ1 !! c = Some rc
      ∧ separate (mws rc) {| ptr := Some 0%nat; len := 1; cap := 2 |}
      ∧ middlewares c σ1
        = Some (contents sample_Store
                  {| ptr := Some 0%nat; len := 1; cap := 2 |}
                ++ [Some (bracket "B>" "<B")])
      ∧ middlewares 0%nat σ1
        = Some (contents sample_Store
                  {| ptr := Some 0%nat; len := 1; cap := 2 |})
      ∧ ∀ extra, ∃ σ2,
          Use doubling c extra σ1 = Some (tt, σ2)
          ∧ store_ok σ2
          ∧ middlewares c σ2
            = Some ((contents sample_Store
                       {| ptr := Some 0%nat; len := 1; cap := 2 |}
                     ++ [Some (bracket "B>" "<B")]) ++ extra)
          ∧ middlewares 0%nat σ2
            = Some (contents sample_Store
                      {| ptr := Some 0%nat; len := 1; cap := 2 |})
          ∧ (∀ h, fst <$> wrap 0%nat h σ2 = fst <$> wrap 0%nat h sample_Store)
          ∧ (∀ fs tbl method pattern factory,
               contents sample_Store
                 {| ptr := Some 0%nat; len := 1; cap := 2 |}
               = Some <$> fs →
               muxes sample_Store !! 0%nat = Some tbl →
               handle 0%nat method pattern factory σ2
               = Some (tt,
                       set_muxes
                         (<[0%nat :=
                             tbl ++ [(route_pattern method "" pattern,
                                      onion fs
                                        (Handler_ServeHTTP
                                           (factory
                                              (NewErrorLoggingResponder 0%nat
                                                 sample_fn))))]]>
                            (muxes σ2)) σ2)).
Proof.
  exact (Group_then_Use_leaves_parent doubling sample_Store 0%nat _ "v1"
           [Some (bracket "B>" "<B")] sample_Store_ok
           (lookup_singleton_eq _ _)).
Defined.


(** * Further properties of the serve configuration *)

(** [Override] in closed form: each of the six copied fields is [other]'s
    when that is non-zero, and the receiver's otherwise. *)
Lemma Override_closed (c other : ServeConfig) :
  Override c other
  = {| Host := if decide (Host other ≠ "") then Host other else Host c;
       Port := if decide (Port other ≠ 0) then Port other else Port c;
       IdleTimeout := if decide (IdleTimeout other ≠ 0)
                      then IdleTimeout other else IdleTimeout c;
       ReadTimeout := if decide (ReadTimeout other ≠ 0)
                      then ReadTimeout other else ReadTimeout c;
       WriteTimeout := if decide (WriteTimeout other ≠ 0)
                       then WriteTimeout other else WriteTimeout c;
       ShutdownTimeout := if decide (ShutdownTimeout other ≠ 0)
                          then ShutdownTimeout other else ShutdownTimeout c;
       ErrorLog := ErrorLog c; TLS := TLS c; tlsErr := tlsErr c |}.
Proof.
  destruct c, other. unfold Override; cbn.
  repeat (case_decide; cbn); reflexivity.
Qed.

(** X1. Layering is associative: overriding [a] with [b] and then with
    [c] gives the same configuration as overriding [a] with [b] overridden
    by [c]; the all-zero configuration is a right identity, and
    overriding twice with the same configuration is overriding once. *)
Theorem Override_assoc (a b c : ServeConfig) :
  Override (Override a b) c = Override a (Override b c)
  ∧ Override a zeroServeConfig = a
  ∧ Override (Override a b) b = Override a b.
Proof.
  rewrite !Override_closed; cbn.
  destruct a, b, c; cbn.
  repeat split; repeat (case_decide; cbn); try reflexivity;
    repeat f_equal; congruence.
Qed.

(** X2. [WithConfig] never touches the TLS state: whatever the given
    configuration holds, applying it leaves ErrorLog, TLS and the
    deferred TLS error of the receiver as they were, so [Validate]
    returns the same error, or none, as it would have without it. *)
Theorem WithConfig_keeps_TLS_state (cfg v : ServeConfig) :
  ErrorLog (apply (WithConfig v) cfg) = ErrorLog cfg
  ∧ TLS (apply (WithConfig v) cfg) = TLS cfg
  ∧ tlsErr (apply (WithConfig v) cfg) = tlsErr cfg
  ∧ snd (Validate (apply (WithConfig v) cfg)) = snd (Validate cfg).
Proof.
  cbn [WithConfig apply]. rewrite !Validate_unfold, Override_closed.
  repeat split.
Qed.

Lemma setDefaultZeroValues_closed (c : ServeConfig) :
  setDefaultZeroValues c
  = {| Host := Host c;
       Port := if Port c <=? 0 then _defaultPort else Port c;
       IdleTimeout := if IdleTimeout c <=? 0
                      then _defaultIdleTimeout else IdleTimeout c;
       ReadTimeout := if ReadTimeout c <=? 0
                      then _defaultReadTimeout else ReadTimeout c;
       WriteTimeout := if WriteTimeout c <=? 0
                       then _defaultWriteTimeout else WriteTimeout c;
       ShutdownTimeout := if ShutdownTimeout c <=? 0
                          then _defaultShutdownTimeout
                          else ShutdownTimeout c;
       ErrorLog := ErrorLog c; TLS := TLS c; tlsErr := tlsErr c |}.
Proof.
  destruct c as [h p i rd wr sh lg t te].
  unfold setDefaultZeroValues; cbn.
  destruct (p <=? 0); cbn; destruct (i <=? 0); cbn;
    destruct (rd <=? 0); cbn; destruct (wr <=? 0); cbn;
    destruct (sh <=? 0); reflexivity.
Qed.

(** X3. [Validate] replaces the port and each timeout by its default
    when the value is zero or negative and keeps it when it is positive;
    it leaves Host, ErrorLog, TLS and the deferred error alone; and a
    second [Validate] changes nothing and returns the same error. *)
Theorem Validate_backfills_only_non_positive (c : ServeConfig) :
  fst (Validate c)
  = {| Host := Host c;
       Port := if Port c <=? 0 then 8080 else Port c;
       IdleTimeout := if IdleTimeout c <=? 0
                      then 60 * 1000000000 else IdleTimeout c;
       ReadTimeout := if ReadTimeout c <=? 0
                      then 5 * 1000000000 else ReadTimeout c;
       WriteTimeout := if WriteTimeout c <=? 0
                       then 10 * 1000000000 else WriteTimeout c;
       ShutdownTimeout := if ShutdownTimeout c <=? 0
                          then 10 * 1000000000 else ShutdownTimeout c;
       ErrorLog := ErrorLog c; TLS := TLS c; tlsErr := tlsErr c |}
  ∧ Validate (fst (Validate c)) = Validate c.
Proof.
  rewrite !Validate_unfold; cbn [fst].
  rewrite setDefaultZeroValues_tlsErr.
  split; [apply setDefaultZeroValues_closed|].
  f_equal.
  destruct (setDefaultZeroValues_positive c) as (Hp & Hi & Hr & Hw & Hs).
  rewrite (setDefaultZeroValues_closed (setDefaultZeroValues c)).
  repeat match goal with
         | |- context [?x <=? 0] => destruct (Z.leb_spec x 0); [lia|]
         end.
  by destruct (setDefaultZeroValues c).
Qed.

Lemma apply_configOptions (l : list ServeOption) (cfg : ServeConfig) :
  apply (configOptions l) cfg = foldl (λ cfg opt, apply opt cfg) cfg l.
Proof.
  revert cfg. induction l as [|o l IH]; intros cfg; [done|].
  cbn [foldl]. rewrite <- IH. reflexivity.
Qed.

(** X4. The composite option applies its options in order: a list
    split in two is the first part followed by the second, the empty
    list changes nothing, and nesting a composite inside a composite
    makes no difference. *)
Theorem WithOptions_applies_in_order (l1 l2 : list ServeOption)
    (o : ServeOption) (cfg : ServeConfig) :
  apply (WithOptions (l1 ++ l2)) cfg
  = apply (WithOptions l2) (apply (WithOptions l1) cfg)
  ∧ apply (WithOptions []) cfg = cfg
  ∧ apply (WithOptions (o :: l1)) cfg
    = apply (WithOptions l1) (apply o cfg)
  ∧ apply (WithOptions (l1 ++ [WithOptions l2])) cfg
    = apply (WithOptions (l1 ++ l2)) cfg.
Proof.
  unfold WithOptions. rewrite !apply_configOptions, !foldl_app.
  repeat split. cbn [foldl]. by rewrite apply_configOptions.
Qed.

(** X5. When the key pair loads, the CA file is read and its
    certificates parse, [WithTLS] returns an option without error whose
    configuration requires and verifies client certificates against
    the CA pool, presents the loaded certificate, accepts TLS 1.2 at
    least and offers h2 and http/1.1. Applied to any configuration, also
    one that holds a deferred error of an earlier option, it installs
    that configuration and clears the error, so [Validate] succeeds. *)
Theorem WithTLS_success
    (tls_LoadX509KeyPair : string → string → tls_Certificate + error)
    (os_ReadFile : string → string + error)
    (x509_AppendCertsFromPEM : string → option x509_CertPool)
    (caFile ceFile keyFile : string) (ce : tls_Certificate) (ca : string)
    (pool : x509_CertPool) (cfg : ServeConfig) :
  tls_LoadX509KeyPair ceFile keyFile = inl ce →
  os_ReadFile caFile = inl ca →
  x509_AppendCertsFromPEM ca = Some pool →
  WithTLS tls_LoadX509KeyPair os_ReadFile x509_AppendCertsFromPEM
    caFile ceFile keyFile
  = tlsOption
      (Some {| ClientAuth := tls_RequireAndVerifyClientCert;
               Certificates := [ce];
               ClientCAs := pool;
               MinVersion := tls_VersionTLS12;
               NextProtos := ["h2"; "http/1.1"] |})
      None
  ∧ tlsErr (apply (WithTLS tls_LoadX509KeyPair os_ReadFile
                     x509_AppendCertsFromPEM caFile ceFile keyFile) cfg)
    = None
  ∧ snd (Validate (apply (WithTLS tls_LoadX509KeyPair os_ReadFile
                            x509_AppendCertsFromPEM caFile ceFile keyFile)
                     cfg))
    = None.
Proof.
  intros Hce Hca Hpool. unfold WithTLS. rewrite Hce, Hca, Hpool.
  rewrite Validate_unfold. repeat split.
Qed.

(** X5 on a platform where the files load, applied over a configuration
    that holds the deferred error of a failed option. *)
Lemma WithTLS_success_witness :
  WithTLS sample_LoadX509KeyPair sample_ReadFile sample_AppendCertsFromPEM
    "ca.pem" "cert.pem" "key.pem"
  = tlsOption
      (Some {| ClientAuth := tls_RequireAndVerifyClientCert;
               Certificates := ["cert.pem+key.pem"];
               ClientCAs := ["-----BEGIN CERTIFICATE-----"];
               MinVersion := tls_VersionTLS12;
               NextProtos := ["h2"; "http/1.1"] |})
      None
  ∧ tlsErr (apply (WithTLS sample_LoadX509KeyPair sample_ReadFile
                     sample_AppendCertsFromPEM "ca.pem" "cert.pem" "key.pem")
              (apply (tlsOption None (Some (platform_error "no such file")))
                 zeroServeConfig))
    = None
  ∧ snd (Validate
           (apply (WithTLS sample_LoadX509KeyPair sample_ReadFile
                     sample_AppendCertsFromPEM "ca.pem" "cert.pem" "key.pem")
              (apply (tlsOption None (Some (platform_error "no such file")))
                 zeroServeConfig)))
    = None.
Proof.
  exact (WithTLS_success sample_LoadX509KeyPair sample_ReadFile
           sample_AppendCertsFromPEM "ca.pem" "cert.pem" "key.pem"
           "cert.pem+key.pem" "-----BEGIN CERTIFICATE-----"
           ["-----BEGIN CERTIFICATE-----"]
           (apply (tlsOption None (Some (platform_error "no such file")))
              zeroServeConfig)
           eq_refl eq_refl eq_refl).
Defined.

(** X6. [Serve] validates before anything else. When the options,
    applied in order to the zero configuration, leave a deferred TLS
    error, [Serve] returns the error wrapping it whatever the platform
    would do with a server: none is built or started. Otherwise the
    server is started on the address, the timeouts and the TLS
    configuration of the backfilled configuration. Passing the options
    one by one or wrapped in a single [WithOptions] is the same. *)
Theorem Serve_validates_first
    (net_JoinHostPort : string → string → string)
    (strconv_Itoa : Z → string)
    (eg_Wait : http_Server → Z → option error)
    (h : http_Handler) (opts : list ServeOption) :
  (∀ e eg_Wait',
     tlsErr (apply (WithOptions opts) zeroServeConfig) = Some e →
     Serve net_JoinHostPort strconv_Itoa eg_Wait' h opts
     = Some (fmt_Errorf "tls must be configured correctly if provided: %w"
               [any_error e]))
  ∧ (tlsErr (apply (WithOptions opts) zeroServeConfig) = None →
     Serve net_JoinHostPort strconv_Itoa eg_Wait h opts
     = eg_Wait
         {| srv_Addr :=
              net_JoinHostPort
                (Host (apply (WithOptions opts) zeroServeConfig))
                (strconv_Itoa
                   (Port (setDefaultZeroValues
                            (apply (WithOptions opts) zeroServeConfig))));
            srv_Handler := h;
            srv_IdleTimeout :=
              IdleTimeout (setDefaultZeroValues
                             (apply (WithOptions opts) zeroServeConfig));
            srv_ReadTimeout :=
              ReadTimeout (setDefaultZeroValues
                             (apply (WithOptions opts) zeroServeConfig));
            srv_WriteTimeout :=
              WriteTimeout (setDefaultZeroValues
                              (apply (WithOptions opts) zeroServeConfig));
            srv_TLSConfig := TLS (apply (WithOptions opts) zeroServeConfig) |}
         (ShutdownTimeout (setDefaultZeroValues
                             (apply (WithOptions opts) zeroServeConfig))))
  ∧ Serve net_JoinHostPort strconv_Itoa eg_Wait h [WithOptions opts]
    = Serve net_JoinHostPort strconv_Itoa eg_Wait h opts.
Proof.
  unfold Serve, WithOptions. cbn [foldl].
  rewrite !apply_configOptions, !Validate_unfold.
  set (cfg := foldl _ zeroServeConfig opts).
  split; [intros e w' ->; reflexivity|].
  split; [|reflexivity].
  intros ->. unfold Addr.
  rewrite setDefaultZeroValues_closed; reflexivity.
Qed.

(** * Further properties of the router *)

Section RouterMore.

Variable growcap : nat → nat → nat.

Lemma wrap_range_None xs h σ :
  None ∈ xs → wrap_range xs h σ = None.
Proof.
  revert h. induction xs as [|[mw|] xs IH]; intros h Hin.
  - by apply elem_of_nil in Hin.
  - cbn. apply IH. by apply elem_of_cons in Hin as [|].
  - reflexivity.
Qed.

Lemma table_set_routers σ p q s rq :
  routers σ !! q = Some rq →
  table p (set_routers
             (<[q := mkRouter (m rq) (r rq) (prefix rq) s]> (routers σ)) σ)
  = table p σ.
Proof.
  intros Hq. unfold table; cbn. rewrite lookup_insert.
  case_decide as Hpq; [|done]. subst. by rewrite Hq.
Qed.


(** X8. [Use] accepts a nil middleware without complaint, and from then
    on every registration on that router panics: [wrap] calls the nil
    function. Nothing is registered by the call that panics. *)
Theorem Use_nil_then_handle_panics σ p rp ms :
  store_ok σ → routers σ !! p = Some rp → None ∈ ms →
  ∃ σ', Use growcap p ms σ = Some (tt, σ')
        ∧ ∀ method pattern factory,
            handle p method pattern factory σ' = None.
Proof.
  intros Hok Hp Hnil.
  destruct (Use_spec growcap σ p rp ms Hok Hp)
    as (s' & σ' & HU & Hok' & _ & Hr & Hmp & _).
  exists σ'. split; [exact HU|].
  intros method pattern factory.
  assert (Hp' : routers σ' !! p
                = Some (mkRouter (m rp) (r rp) (prefix rp) s'))
    by (rewrite Hr; apply lookup_insert_eq).
  pose proof (middlewares_wf _ _ _ Hp' (ok_slice _ Hok' _ _ Hp')) as Hc.
  rewrite Hmp in Hc. injection Hc as Hc. cbn [mws] in Hc.
  unfold handle.
  erewrite bind_Some by (by apply get_router_Some).
  unfold bind.
  rewrite (wrap_wf σ' p _ _ Hp' (ok_slice _ Hok' _ _ Hp')).
  rewrite wrap_range_None; [done|].
  unfold slices_Backward. cbn [mws]. rewrite <- Hc.
  apply elem_of_reverse, elem_of_app. by right.
Qed.

(** X9. [Use] appends to the list of its own router and changes nothing
    else: the list of every other router and every dispatch table are as
    before, so a route that is already registered keeps the handler it
    was registered with, on this router too. With no argument [Use]
    leaves the list as it was. *)
Theorem Use_changes_own_list_only σ q rq ms :
  store_ok σ → routers σ !! q = Some rq →
  ∃ σ', Use growcap q ms σ = Some (tt, σ')
        ∧ middlewares q σ' = Some (contents σ (mws rq) ++ ms)
        ∧ (ms = [] → middlewares q σ' = middlewares q σ)
        ∧ (∀ p, p ≠ q → middlewares p σ' = middlewares p σ)
        ∧ muxes σ' = muxes σ
        ∧ (∀ p, table p σ' = table p σ).
Proof.
  intros Hok Hq.
  destruct (Use_spec growcap σ q rq ms Hok Hq)
    as (s' & σ' & HU & Hok' & Hm & Hr & Hmq & Hframe).
  exists σ'. split; [exact HU|]. split; [exact Hmq|].
  split.
  { intros ->. rewrite Hmq, app_nil_r.
    by rewrite (middlewares_wf _ _ _ Hq (ok_slice _ Hok _ _ Hq)). }
  split; [exact Hframe|]. split; [exact Hm|].
  intros p. unfold table. rewrite Hr, Hm, lookup_insert.
  case_decide as Hpq; [|done]. subst. by rewrite Hq.
Qed.


End RouterMore.


(** X8 on the sample store. *)
Lemma Use_nil_then_handle_panics_witness :
  ∃ σ', Use doubling 0%nat [None] sample_Store = Some (tt, σ')
        ∧ ∀ method pattern factory,
            handle 0%nat method pattern factory σ' = None.
Proof.
  refine (Use_nil_then_handle_panics doubling sample_Store 0%nat _ [None]
            sample_Store_ok (lookup_singleton_eq _ _) _).
  apply list_elem_of_here.
Defined.

(** X9 on the sample store. *)
Lemma Use_changes_own_list_only_witness :
  ∃ σ', Use doubling 0%nat [Some (bracket "B>" "<B")] sample_Store
        = Some (tt, σ')
        ∧ middlewares 0%nat σ'
          = Some (contents sample_Store
                    {| ptr := Some 0%nat; len := 1; cap := 2 |}
                  ++ [Some (bracket "B>" "<B")])
        ∧ ([Some (bracket "B>" "<B")] = [] →
           middlewares 0%nat σ' = middlewares 0%nat sample_Store)
        ∧ (∀ p, p ≠ 0%nat → middlewares p σ' = middlewares p sample_Store)
        ∧ muxes σ' = muxes sample_Store
        ∧ (∀ p, table p σ' = table p sample_Store).
Proof.
  exact (Use_changes_own_list_only doubling sample_Store 0%nat _
           [Some (bracket "B>" "<B")] sample_Store_ok
           (lookup_singleton_eq _ _)).
Defined.


(** * Patterns and redirect targets *)

Lemma strings_TrimRight_idemp s cutset :
  strings_TrimRight (strings_TrimRight s cutset) cutset
  = strings_TrimRight s cutset.
Proof.
  induction s as [|c rest IH]; [done|]. cbn.
  destruct (strings_TrimRight rest cutset) as [|e kept] eqn:Hrest.
  - destruct (inCutset c cutset) eqn:Hc; [done|]. cbn. by rewrite Hc.
  - cbn [strings_TrimRight]. cbn [strings_TrimRight] in IH. rewrite IH.
    reflexivity.
Qed.

(** A suffix of a string without trailing cutset bytes has none. *)
Lemma strings_TrimRight_fixed_tail c rest cutset :
  strings_TrimRight (String c rest) cutset = String c rest →
  strings_TrimRight rest cutset = rest.
Proof.
  cbn. destruct (strings_TrimRight rest cutset) as [|e kept].
  - destruct (inCutset c cutset); [done|]. by intros [= <-].
  - by intros [= <-].
Qed.

Lemma strings_TrimLeft_fixed s cutset :
  strings_TrimRight s cutset = s →
  strings_TrimRight (strings_TrimLeft s cutset) cutset
  = strings_TrimLeft s cutset.
Proof.
  induction s as [|c rest IH]; [done|]. intros Hfix.
  cbn [strings_TrimLeft]. destruct (inCutset c cutset); [|done].
  apply IH. by eapply strings_TrimRight_fixed_tail.
Qed.

Lemma strings_Trim_fixed s cutset :
  strings_TrimRight (strings_Trim s cutset) cutset = strings_Trim s cutset.
Proof. apply strings_TrimLeft_fixed, strings_TrimRight_idemp. Qed.

Lemma string_app_cons c (a b : string) :
  String c a +:+ b = String c (a +:+ b).
Proof. reflexivity. Qed.

Lemma strings_TrimRight_app_keep a b cutset :
  strings_TrimRight b cutset ≠ "" →
  strings_TrimRight (a +:+ b) cutset = a +:+ strings_TrimRight b cutset.
Proof.
  intros Hb. induction a as [|c a IH]; [done|].
  rewrite !string_app_cons. cbn [strings_TrimRight]. rewrite IH.
  destruct (a +:+ strings_TrimRight b cutset) eqn:Happ; [|done].
  destruct a; [done|discriminate].
Qed.

Lemma strings_TrimRight_app_drop a b cutset :
  strings_TrimRight b cutset = "" →
  strings_TrimRight (a +:+ b) cutset = strings_TrimRight a cutset.
Proof.
  intros Hb. induction a as [|c a IH]; [done|].
  rewrite string_app_cons. cbn [strings_TrimRight]. by rewrite IH.
Qed.

(** X11. The pattern [handle] registers, in closed form. When the
    route pattern has a byte other than a slash, the key is the method, a
    space, the router's prefix, one slash and the pattern without its
    outer slashes. When it has none (the empty pattern, or ["/"]), the key is the
    method, a space and the prefix without its trailing slashes. A group
    made with an empty prefix has a prefix ending in a slash, so its
    routes get two slashes in a row. *)
Theorem route_pattern_closed (method pfx pattern g : string) :
  (strings_Trim pattern "/" ≠ "" →
   route_pattern method pfx pattern
   = method +:+ " " +:+ pfx +:+ "/" +:+ strings_Trim pattern "/")
  ∧ (strings_Trim pattern "/" = "" →
     route_pattern method pfx pattern
     = method +:+ " " +:+ strings_TrimRight pfx "/")
  ∧ (strings_Trim g "/" = "" → strings_Trim pattern "/" ≠ "" →
     route_pattern method (pfx +:+ "/" +:+ strings_Trim g "/") pattern
     = method +:+ " " +:+ pfx +:+ "//" +:+ strings_Trim pattern "/").
Proof.
  assert (Hkeep : ∀ q, strings_Trim pattern "/" ≠ "" →
            route_pattern method q pattern
            = method +:+ " " +:+ q +:+ "/" +:+ strings_Trim pattern "/").
  { intros q Hne. unfold route_pattern. do 2 f_equal.
    rewrite strings_TrimRight_app_keep.
    - f_equal. rewrite (strings_TrimRight_app_keep "/").
      + by rewrite strings_Trim_fixed.
      + by rewrite strings_Trim_fixed.
    - rewrite (strings_TrimRight_app_keep "/").
      + done.
      + by rewrite strings_Trim_fixed. }
  split; [apply Hkeep|]. split.
  - intros Hnil. unfold route_pattern. rewrite Hnil. do 2 f_equal.
    by apply strings_TrimRight_app_drop.
  - intros Hg Hne. rewrite Hkeep, Hg by done. do 2 f_equal.
    clear. induction pfx as [|c pfx IH]; [done|].
    exact (f_equal (String c) IH).
Qed.

(** X11 for the route ["/users/"] under the prefix ["/v1"], for the root
    route of that group, and for a group made with the prefix ["/"]. *)
Lemma route_pattern_closed_witness :
  route_pattern "GET" "/v1" "/users/" = "GET /v1/users"
  ∧ route_pattern "GET" "/v1" "/" = "GET /v1"
  ∧ route_pattern "GET" ("/v1" +:+ "/" +:+ strings_Trim "/" "/") "users"
    = "GET /v1//users".
Proof.
  destruct (route_pattern_closed "GET" "/v1" "/users/" "/") as (H1 & _ & H3).
  destruct (route_pattern_closed "GET" "/v1" "/" "/") as (_ & H2 & _).
  split; [apply H1; discriminate|].
  split; [apply H2; reflexivity|].
  exact (proj2 (proj2 (route_pattern_closed "GET" "/v1" "users" "/"))
           eq_refl ltac:(discriminate)).
Defined.

Lemma substring_last_slash s :
  String.substring (String.length s - 1) 1 s = "/" →
  ∃ t, s = t +:+ "/".
Proof.
  induction s as [|c rest IH]; [done|].
  destruct rest as [|d rest'].
  - cbn. intros [= ->]. by exists "".
  - replace (String.length (String c (String d rest')) - 1)%nat
      with (S (String.length (String d rest') - 1)) by (cbn; lia).
    cbn [String.substring]. intros Hsub.
    destruct (IH Hsub) as [t Ht]. exists (String c t).
    rewrite string_app_cons. by rewrite <- Ht.
Qed.

Lemma strings_HasSuffix_slash s :
  strings_HasSuffix s "/" = true → ∃ t, s = t +:+ "/".
Proof.
  unfold strings_HasSuffix. intros [_ Heq]%andb_true_iff.
  apply String.eqb_eq in Heq. by apply substring_last_slash.
Qed.

Lemma strings_TrimRight_length s cutset :
  (String.length (strings_TrimRight s cutset) ≤ String.length s)%nat.
Proof.
  induction s as [|c rest IH]; [done|]. cbn.
  destruct (strings_TrimRight rest cutset) as [|e kept].
  - destruct (inCutset c cutset); cbn; lia.
  - cbn in *. lia.
Qed.

Lemma string_app_length (a b : string) :
  String.length (a +:+ b) = (String.length a + String.length b)%nat.
Proof.
  induction a as [|c a IH]; [done|].
  rewrite string_app_cons. cbn. by rewrite IH.
Qed.

Lemma strings_TrimRight_no_trailing_slash s :
  strings_HasSuffix (strings_TrimRight s "/") "/" = false.
Proof.
  destruct (strings_HasSuffix (strings_TrimRight s "/") "/") eqn:Hsuf;
    [|done].
  exfalso.
  destruct (strings_HasSuffix_slash _ Hsuf) as [t Ht].
  pose proof (strings_TrimRight_idemp s "/") as Hid. rewrite Ht in Hid.
  rewrite strings_TrimRight_app_drop in Hid by done.
  pose proof (strings_TrimRight_length t "/") as Hlen.
  rewrite Hid, string_app_length in Hlen. cbn in Hlen. lia.
Qed.

(** X12. For a request whose path is not ["/"] and ends in a slash,
    [TrailingSlashRedirector] leaves the earlier calls and the other
    header fields as they were, sets the Content-Type entry to the empty
    list and issues one redirect with status 308. The target is the path
    without any of its trailing slashes, followed by ["?"] and the raw
    query when there is one. The target path never ends in a slash, so a
    client that follows the redirect is not redirected a second time. *)
Theorem TrailingSlashRedirector_redirects_once (next : http_Handler)
    (w : ResponseWriter) (req : http_Request) :
  URL_Path req ≠ "/" → strings_HasSuffix (URL_Path req) "/" = true →
  TrailingSlashRedirector next w req
  = {| Header := <["Content-Type" := []]> (Header w);
       Calls := Calls w
                ++ [call_Redirect
                      (if decide (URL_RawQuery req = "")
                       then strings_TrimRight (URL_Path req) "/"
                       else strings_TrimRight (URL_Path req) "/"
                              +:+ "?" +:+ URL_RawQuery req)
                      308] |}
  ∧ strings_HasSuffix (strings_TrimRight (URL_Path req) "/") "/" = false
  ∧ ∀ next' w',
      TrailingSlashRedirector next' w'
        {| Method := Method req;
           URL_Path := strings_TrimRight (URL_Path req) "/";
           URL_RawQuery := URL_RawQuery req |}
      = w'.
Proof.
  intros Hroot Hslash.
  split; [by rewrite TrailingSlashRedirector_redirects|].
  split; [apply strings_TrimRight_no_trailing_slash|].
  intros next' w'. apply TrailingSlashRedirector_otherwise. right.
  apply strings_TrimRight_no_trailing_slash.
Qed.

(** X12 for [GET /users/?page=2]. *)
Lemma TrailingSlashRedirector_redirects_once_witness :
  TrailingSlashRedirector ok_handler newResponseWriter users_slash_request
  = {| Header := <["Content-Type" := []]> ∅;
       Calls := [] ++ [call_Redirect
                         (if decide ("page=2" = "")
                          then strings_TrimRight "/users/" "/"
                          else strings_TrimRight "/users/" "/"
                                 +:+ "?" +:+ "page=2")
                         308] |}
  ∧ strings_HasSuffix (strings_TrimRight "/users/" "/") "/" = false
  ∧ ∀ next' w',
      TrailingSlashRedirector next' w'
        {| Method := "GET";
           URL_Path := strings_TrimRight "/users/" "/";
           URL_RawQuery := "page=2" |}
      = w'.
Proof.
  apply (TrailingSlashRedirector_redirects_once ok_handler newResponseWriter
           users_slash_request); [discriminate | reflexivity].
Defined.

(** * The in-memory repository *)

Section RepositoryFacts.

Context {K : Type} `{Countable K} {V : Type}.
Variable ID : V → K.

Lemma memory_ok_assign (σ : Memory (K := K) (V := V)) p x :
  memory_ok σ → is_Some (objects σ !! p) → memory_ok (assign p x σ).
Proof.
  intros Hok Hp k v Hk. destruct (Hok k v Hk) as (q & -> & Hq).
  exists q. split; [done|]. cbn. rewrite lookup_insert.
  case_decide; [by eauto|done].
Qed.

(** X13. Save then Load is a round trip. When the key of the value is
    free, [Save] returns no error, and after it [Load] through any
    pointer to a value with that ID returns no error and has copied the
    saved value into the pointee; the map holds the saved pointer under
    that key and is otherwise as before. *)
Theorem Save_then_Load (σ : Memory (K := K) (V := V)) p x q y :
  memory_ok σ →
  objects σ !! p = Some x → data σ !! ID x = None →
  objects σ !! q = Some y → ID y = ID x →
  ∃ σ1,
    Save ID (Some p) σ = Some (None, σ1)
    ∧ memory_ok σ1
    ∧ data σ1 = <[ID x := Some p]> (data σ)
    ∧ Load ID (Some q) σ1 = Some (None, assign q x σ1)
    ∧ objects (assign q x σ1) !! q = Some x.
Proof.
  intros Hok Hp Hfree Hq Hid. eexists.
  split; [unfold Save; by rewrite Hp, Hfree|].
  split.
  { intros k v. cbn. rewrite lookup_insert. case_decide.
    - intros [= <-]. eauto.
    - apply Hok. }
  split; [done|].
  split.
  - unfold Load; cbn. by rewrite Hq, Hid, lookup_insert_eq, Hp.
  - cbn. apply lookup_insert_eq.
Qed.

(** X14. A call that returns an error changes nothing: neither the map
    nor any value. In particular a second [Save] under a key that is
    taken is refused, also for another value with that ID, and the entry
    saved first stays; [Load] of a key that is absent leaves its argument
    as it was; a nil argument is refused by both. *)
Theorem repository_errors_change_nothing
    (σ : Memory (K := K) (V := V)) :
  (∀ val e σ', Save ID val σ = Some (Some e, σ') → σ' = σ)
  ∧ (∀ val e σ', Load ID val σ = Some (Some e, σ') → σ' = σ)
  ∧ (∀ p x, objects σ !! p = Some x → is_Some (data σ !! ID x) →
            Save ID (Some p) σ
            = Some (Some (errors_New "saving: already exists"), σ))
  ∧ (∀ p x, objects σ !! p = Some x → data σ !! ID x = None →
            Load ID (Some p) σ
            = Some (Some (errors_New "loading: not found"), σ))
  ∧ Save ID None σ = Some (Some (errors_New "saving: value empty"), σ)
  ∧ Load ID None σ = Some (Some (errors_New "loading: value empty"), σ).
Proof.
  split.
  { intros [p|] e σ'; unfold Save; [|by intros [= _ <-]].
    destruct (objects σ !! p) as [x|]; [|done].
    destruct (data σ !! ID x); [by intros [= _ <-]|done]. }
  split.
  { intros [p|] e σ'; unfold Load; [|by intros [= _ <-]].
    destruct (objects σ !! p) as [x|]; [|done].
    destruct (data σ !! ID x) as [[q|]|]; try by intros [= _ <-].
    destruct (objects σ !! q); done. }
  split.
  { intros p x Hp [v Hv]. unfold Save. by rewrite Hp, Hv. }
  split; [|done].
  intros p x Hp Hnone. unfold Load. by rewrite Hp, Hnone.
Qed.

(** X15. The repository keeps the pointer it was given, not a copy of
    the value. What the caller assigns through that pointer after a
    successful [Save] is what a later [Load] under the saved key
    returns, also when the new value has another ID. *)
Theorem Save_keeps_the_pointer (σ : Memory (K := K) (V := V))
    p x x' q y :
  memory_ok σ →
  objects σ !! p = Some x → data σ !! ID x = None →
  q ≠ p → objects σ !! q = Some y → ID y = ID x →
  ∃ σ1,
    Save ID (Some p) σ = Some (None, σ1)
    ∧ Load ID (Some q) (assign p x' σ1)
      = Some (None, assign q x' (assign p x' σ1))
    ∧ objects (assign q x' (assign p x' σ1)) !! q = Some x'.
Proof.
  intros Hok Hp Hfree Hqp Hq Hid. eexists.
  split; [unfold Save; by rewrite Hp, Hfree|].
  split.
  - unfold Load; cbn.
    rewrite lookup_insert_ne, Hq, Hid by done.
    by rewrite !lookup_insert_eq.
  - cbn. apply lookup_insert_eq.
Qed.

(** X16. On a memory where every pointer in the map is allocated and
    not nil, [Load] and [Save] through an allocated pointer always
    return, and keep the memory so. [Load] never changes the map and
    changes no value but the pointee of its argument; [Save] never
    changes a value, and never removes or replaces an entry of the map. *)
Theorem repository_keeps_memory_ok (σ : Memory (K := K) (V := V)) p :
  memory_ok σ → is_Some (objects σ !! p) →
  (∃ e σ',
     Load ID (Some p) σ = Some (e, σ')
     ∧ memory_ok σ'
     ∧ data σ' = data σ
     ∧ ∀ q, q ≠ p → objects σ' !! q = objects σ !! q)
  ∧ (∃ e σ',
       Save ID (Some p) σ = Some (e, σ')
       ∧ memory_ok σ'
       ∧ objects σ' = objects σ
       ∧ ∀ k v, data σ !! k = Some v → data σ' !! k = Some v).
Proof.
  intros Hok [x Hp]. split.
  - unfold Load. rewrite Hp.
    destruct (data σ !! ID x) as [v|] eqn:Hk.
    + destruct (Hok _ _ Hk) as (q & -> & [y Hq]). rewrite Hq.
      eexists _, _. split; [done|].
      split; [apply memory_ok_assign; eauto|]. split; [done|].
      intros q' Hne. cbn. by rewrite lookup_insert_ne.
    + eexists _, _. repeat split; done.
  - unfold Save. rewrite Hp.
    destruct (data σ !! ID x) as [v|] eqn:Hk.
    + eexists _, _. repeat split; done.
    + eexists _, _. split; [done|]. split.
      { intros k v. cbn. rewrite lookup_insert. case_decide.
        - intros [= <-]. eauto.
        - apply Hok. }
      split; [done|].
      intros k v Hkv. cbn. rewrite lookup_insert_ne; [done|].
      intros <-. congruence.
Qed.

End RepositoryFacts.

Lemma sample_Memory_ok : memory_ok sample_Memory.
Proof. intros k v Hk. cbn in Hk. by rewrite lookup_empty in Hk. Qed.

(** X13 with two accounts of the same number. *)
Lemma Save_then_Load_witness :
  ∃ σ1,
    Save sample_account_ID (Some 1%nat) sample_Memory = Some (None, σ1)
    ∧ memory_ok σ1
    ∧ data σ1 = <["acc-1" := Some 1%nat]> (data sample_Memory)
    ∧ Load sample_account_ID (Some 2%nat) σ1
      = Some (None, assign 2%nat ("acc-1", 100) σ1)
    ∧ objects (assign 2%nat ("acc-1", 100) σ1) !! 2%nat
      = Some ("acc-1", 100).
Proof.
  exact (Save_then_Load sample_account_ID sample_Memory 1%nat ("acc-1", 100)
           2%nat ("acc-1", 0) sample_Memory_ok eq_refl eq_refl eq_refl
           eq_refl).
Defined.

(** X15 with two accounts of the same number: the balance written after
    the save is the one loaded. *)
Lemma Save_keeps_the_pointer_witness :
  ∃ σ1,
    Save sample_account_ID (Some 1%nat) sample_Memory = Some (None, σ1)
    ∧ Load sample_account_ID (Some 2%nat) (assign 1%nat ("acc-9", 5) σ1)
      = Some (None,
              assign 2%nat ("acc-9", 5) (assign 1%nat ("acc-9", 5) σ1))
    ∧ objects (assign 2%nat ("acc-9", 5) (assign 1%nat ("acc-9", 5) σ1))
        !! 2%nat
      = Some ("acc-9", 5).
Proof.
  refine (Save_keeps_the_pointer sample_account_ID sample_Memory 1%nat
            ("acc-1", 100) ("acc-9", 5) 2%nat ("acc-1", 0) sample_Memory_ok
            eq_refl eq_refl _ eq_refl eq_refl).
  discriminate.
Defined.

(** X16 on the sample memory. *)
Lemma repository_keeps_memory_ok_witness :
  (∃ e σ',
     Load sample_account_ID (Some 1%nat) sample_Memory = Some (e, σ')
     ∧ memory_ok σ'
     ∧ data σ' = data sample_Memory
     ∧ ∀ q, q ≠ 1%nat → objects σ' !! q = objects sample_Memory !! q)
  ∧ (∃ e σ',
       Save sample_account_ID (Some 1%nat) sample_Memory = Some (e, σ')
       ∧ memory_ok σ'
       ∧ objects σ' = objects sample_Memory
       ∧ ∀ k v, data sample_Memory !! k = Some v → data σ' !! k = Some v).
Proof.
  refine (repository_keeps_memory_ok sample_account_ID sample_Memory 1%nat
            sample_Memory_ok _).
  by eexists.
Defined.

(** * The executor and the JSON decoder *)

(** X17. [Execute] stops at the first stage that fails and returns its
    error: when parsing or processing fails, the presenter is not run
    and the writer is as it was. It returns no error exactly when the
    three stages succeed, and then the writer is the one the presenter
    left. *)
Theorem Execute_stops_at_first_error {I O Rd Wr Ctx : Type}
    (e : Executor (I := I) (O := O) (Rd := Rd) (Wr := Wr) (Ctx := Ctx))
    (ctx : Ctx) (rd : Rd) (wr : Wr) :
  (∀ err rd',
     parser e rd = (inr err, rd') →
     Execute e ctx rd wr = (rd', wr, Some err))
  ∧ (∀ input rd' err,
       parser e rd = (inl input, rd') →
       processor e ctx input = inr err →
       Execute e ctx rd wr = (rd', wr, Some err))
  ∧ (∀ input rd' output,
       parser e rd = (inl input, rd') →
       processor e ctx input = inl output →
       Execute e ctx rd wr
       = (rd', fst (presenter e wr output), snd (presenter e wr output)))
  ∧ (snd (Execute e ctx rd wr) = None ↔
     ∃ input output,
       fst (parser e rd) = inl input
       ∧ processor e ctx input = inl output
       ∧ snd (presenter e wr output) = None)
  ∧ (snd (fst (Execute e ctx rd wr)) ≠ wr →
     ∃ input output,
       fst (parser e rd) = inl input
       ∧ processor e ctx input = inl output).
Proof.
  unfold Execute.
  split; [by intros err rd' ->|].
  split; [by intros input rd' err -> ->|].
  split.
  { intros input rd' output -> ->. by destruct (presenter e wr output). }
  destruct (parser e rd) as [[input|err] rd']; cbn.
  2: { split; [|done]. split; [done|]. by intros (? & ? & ? & _). }
  destruct (processor e ctx input) as [output|err] eqn:Hpr; cbn.
  2: { split; [|done]. split; [done|].
       intros (? & ? & [= <-] & ? & _). congruence. }
  destruct (presenter e wr output) as [wr' err] eqn:Hpe; cbn.
  split; [|by eauto].
  split.
  - intros ->. exists input, output. by rewrite Hpe.
  - intros (? & ? & [= <-] & Hpr' & Hpe').
    rewrite Hpr in Hpr'. injection Hpr' as <-. by rewrite Hpe in Hpe'.
Qed.

(** X18. [DecodeJSON] returns no error exactly when the decoder
    succeeds and the decoded value, if its type has a [Validate] method,
    passes it. A decoding failure is reported as ["unmarshaling json"]
    wrapping the decoder's error, whether or not the type validates; a
    validation failure, which is judged on the decoded value, as
    ["validating"] wrapping the validator's error. *)
Theorem DecodeJSON_errors {T Rd : Type}
    (json_UnmarshalRead : Rd → T → Rd * T * option error)
    (validate : option (T → option error)) (from : Rd) (to : T) :
  (∀ from' to' err,
     json_UnmarshalRead from to = (from', to', Some err) →
     DecodeJSON json_UnmarshalRead validate from to
     = (from', to',
        Some (fmt_Errorf "unmarshaling json: %w" [any_error err])))
  ∧ (∀ from' to' v err,
       json_UnmarshalRead from to = (from', to', None) →
       validate = Some v → v to' = Some err →
       DecodeJSON json_UnmarshalRead validate from to
       = (from', to', Some (fmt_Errorf "validating: %w" [any_error err])))
  ∧ (snd (DecodeJSON json_UnmarshalRead validate from to) = None ↔
     snd (json_UnmarshalRead from to) = None
     ∧ ∀ v, validate = Some v →
            v (snd (fst (json_UnmarshalRead from to))) = None)
  ∧ fst (DecodeJSON json_UnmarshalRead validate from to)
    = fst (json_UnmarshalRead from to).
Proof.
  unfold DecodeJSON.
  split; [by intros from' to' err ->|].
  split; [by intros from' to' v err -> -> ->|].
  destruct (json_UnmarshalRead from to) as [[from' to'] [err|]]; cbn.
  { split; [|done]. split; [done|]. by intros [? _]. }
  destruct validate as [v|]; cbn.
  2: { split; [|done]. split; [|done]. intros _. split; [done|]. done. }
  destruct (v to') as [err|] eqn:Hv; cbn.
  - split; [|done]. split; [done|].
    intros [_ Hall]. specialize (Hall v eq_refl). congruence.
  - split; [|done]. split; [|done]. intros _. split; [done|].
    by intros ? [= <-].
Qed.

(** * Package hlog and MaxBytesReader *)









Lemma unwrap_loop_no_Unwrap w : Unwrap (unwrap_loop w) = None.
Proof. induction w; cbn; done. Qed.

(** X20. [MaxBytesReader] hands the platform the writer found under all
    the [Interceptor] layers: for a writer without [Unwrap] wrapped in
    any number of interceptors, that writer, with the body and the limit
    as given. The writer it hands over never has an [Unwrap] method, and
    a wrapper without [Unwrap] is not looked into. *)
Theorem MaxBytesReader_unwraps {RC : Type}
    (hooks : list (option (Z → World → World))) (base : Writer)
    (rc : RC) (max : Z) :
  Unwrap base = None →
  MaxBytesReader (foldr (λ hook w, Interceptor w hook) base hooks) rc max
  = mk_maxBytesReader base rc max
  ∧ (∀ w, Unwrap (mbr_w (MaxBytesReader w rc max)) = None)
  ∧ (∀ w, MaxBytesReader (plain_wrapper w) rc max
          = mk_maxBytesReader (plain_wrapper w) rc max).
Proof.
  intros Hbase. split; [|split; [intros w; apply unwrap_loop_no_Unwrap|done]].
  unfold MaxBytesReader. f_equal.
  induction hooks as [|hook hooks IH]; cbn; [|exact IH].
  by destruct base.
Qed.

(** X20 for the writer of the server under three interceptors, the
    innermost being the one [StatusCode] installs. *)
Lemma MaxBytesReader_unwraps_witness :
  MaxBytesReader
    (foldr (λ hook w, Interceptor w hook) transport
       [None; None; Some (λ code σ, set_var 0%nat code σ)])
    "body" 1024
  = mk_maxBytesReader transport "body" 1024
  ∧ (∀ w, Unwrap (mbr_w (MaxBytesReader w "body" 1024)) = None)
  ∧ (∀ w, MaxBytesReader (plain_wrapper w) "body" 1024
          = mk_maxBytesReader (plain_wrapper w) "body" 1024).
Proof.
  exact (MaxBytesReader_unwraps
           [None; None; Some (λ code σ, set_var 0%nat code σ)]
           transport "body" 1024 eq_refl).
Defined.




(** * Handler chains and separate routers *)

Lemma chain_ServeHTTP units last f w req :
  Handler_ServeHTTP (HandlerOf (λ w req, (f w req, chain units last))) w req
  = match last with
    | Some h => Handler_ServeHTTP h (foldl (λ w g, g w req) (f w req) units)
                  req
    | None => foldl (λ w g, g w req) (f w req) units
    end.
Proof.
  revert f w. induction units as [|g units IH]; intros f w; cbn.
  - by destruct last as [[h]|].
  - exact (IH g (f w req)).
Qed.

(** X23. [Handler.ServeHTTP] runs the units of a chain in order, each
    once, on the writer the one before left, and stops at the first
    that returns nil. When the last unit returns the handler of
    [Responder.Text], the text response is written after all of them:
    the Content-Type is set, then the status and the message are
    written, and the chain ends. *)
Theorem ServeHTTP_runs_chain_in_order
    (f : ResponseWriter → http_Request → ResponseWriter)
    (units : list (ResponseWriter → http_Request → ResponseWriter))
    (rs : Responder) (code : Z) (message : string)
    (w : ResponseWriter) (req : http_Request) :
  Handler_ServeHTTP (HandlerOf (λ w req, (f w req, chain units None))) w req
  = foldl (λ w g, g w req) (f w req) units
  ∧ Handler_ServeHTTP
      (HandlerOf (λ w req,
         (f w req, chain units (Some (fst (Responder_Text rs code message))))))
      w req
    = Write message
        (WriteHeader code
           (Header_Set "Content-Type" "text/plain; charset=utf-8"
              (foldl (λ w g, g w req) (f w req) units)))
  ∧ snd (Responder_Text rs code message) = [].
Proof.
  rewrite !chain_ServeHTTP. repeat split.
Qed.

Section SeparateRouters.

Variable growcap : nat → nat → nat.


End SeparateRouters.

